(** * Iden Challenge automation: the batch-extraction loop and the in-page
      record parser of [iden_challenge_final_script.py]

    The Python class [IdenChallengeAutomation] polls a product page, slices
    the records it has not yet accumulated off each snapshot, writes them to
    numbered batch files and finally writes one consolidated file.  The
    browser is the environment: each loop iteration receives one [Poll]
    (what the scroll / count / evaluate calls of that iteration give back),
    and the object's fields are threaded through as an explicit [State]. *)

From stdpp Require Import base option list strings gmap pretty.
From Stdlib Require Import ZArith Lia Ascii.

Local Open Scope Z_scope.

(** ** Python exceptions *)

(** A call either returns a value or raises (any [Exception]). *)
Inductive Exn (A : Type) : Type :=
| Ok (a : A)
| Raise.
Arguments Ok {A} a.
Arguments Raise {A}.

(** Sequencing: the first call that raises ends the [try] body. *)
#[global] Instance Exn_bind : MBind Exn := λ A B k c,
  match c with
  | Ok a => k a
  | Raise => Raise
  end.

(** Python's [not xs] for a list *)
Definition is_empty {A} (xs : list A) : bool :=
  match xs with
  | [] => true
  | _ :: _ => false
  end.

(** [MAX_EXPECTED_PRODUCTS = 50000] *)
Definition MAX_EXPECTED_PRODUCTS : Z := 50000.

(** [max_consecutive_same = 3], the local of [extract_product_data_in_batches] *)
Definition max_consecutive_same : Z := 3.

Section Automation.

(** A product record is opaque to the loop: it only slices and appends. *)
Context {Product : Type}.

(** Constructor arguments of [IdenChallengeAutomation]. *)
Variable batch_size : Z.
Variable base_url : string.

(** What [await self.page.evaluate(...)] of [extract_all_products] hands to
    Python: the list built by [containers.map], or the marker object
    [{ __error: String(err) }] of the script's [catch]. *)
Inductive EvalResult : Type :=
| Records (products : list Product)
| ErrorMarker (err : string).

(** What [extract_all_products] returns: a list, or (when the marker's
    message is falsy) the marker dict itself. *)
Inductive PyValue : Type :=
| PyList (items : list Product)
| PyDict (err : string).

(** The environment of one loop iteration.  [scroll_and_count] is the
    result of the scroll, the 800 ms settle delay and [locator.count()]
    ([Raise] when one of them raises); [page_evaluate] is what the page
    script evaluates to while this iteration runs. *)
Record Poll : Type := mkPoll {
  scroll_and_count : Exn Z;
  page_evaluate : Exn EvalResult
}.

(** One file [batch_NNN.json] ([timestamp] is wall-clock and left out). *)
Record BatchFile : Type := mkBatchFile {
  bf_batch_number : Z;
  bf_products_in_batch : Z;
  bf_total_products_so_far : Z;
  bf_base_url : string;
  bf_products : list Product
}.

(** The consolidated file written by [create_final_output]. *)
Record RunOutput : Type := mkRunOutput {
  total_products : Z;
  total_batches : Z;
  out_batch_size : Z;
  out_base_url : string;
  out_products : list Product
}.

(** The fields of [self] the extraction touches, and the batch folder
    (files in the order they were written; every write is taken to
    succeed: [on_disk] below accounts for writes that fail). *)
Record State : Type := mkState {
  all_products : list Product;
  batch_number : Z;
  batch_folder : list BatchFile
}.

(** [__init__]: [self.all_products = []], [self.batch_number = 1]. *)
Definition init : State :=
  {| all_products := []; batch_number := 1; batch_folder := [] |}.

(** Python's [len] *)
Definition len {A} (l : list A) : Z := Z.of_nat (length l).

(** Python truthiness of a [str] *)
Definition truthy (s : string) : bool :=
  match s with
  | EmptyString => false
  | String _ _ => true
  end.

(** [extract_all_products] *)
Definition extract_all_products (evaluate : Exn EvalResult) : Exn PyValue :=
  result ← evaluate ;
  match result with
  | ErrorMarker err => if truthy err then Ok (PyList []) else Ok (PyDict err)
  | Records products => Ok (PyList products)
  end.

(** [current_products[len(self.all_products):]]; slicing a dict raises. *)
Definition slice_from (current_products : PyValue) (n : nat) : Exn (list Product) :=
  match current_products with
  | PyList items => Ok (drop n items)
  | PyDict _ => Raise
  end.

(** [save_batch_to_file], its [try] branch: the file is written.  The
    [except] branch logs and returns, leaving [self] as the [try] branch
    does; [on_disk] below tells which files then exist. *)
Definition save_batch_to_file (st : State) (batch_products : list Product) : State :=
  let batch_data :=
    {| bf_batch_number := batch_number st;
       bf_products_in_batch := len batch_products;
       bf_total_products_so_far := len (all_products st);
       bf_base_url := base_url;
       bf_products := batch_products |} in
  {| all_products := all_products st;
     batch_number := batch_number st;
     batch_folder := batch_folder st ++ [batch_data] |}.

(** The body of the [try] of [extract_and_save_current_batch]; both raise
    sites come before the first assignment to [self]. *)
Definition extract_and_save_body (force_save : bool) (st : State)
    (evaluate : Exn EvalResult) : Exn State :=
  current_products ← extract_all_products evaluate ;
  new_products ← slice_from current_products (length (all_products st)) ;
  if is_empty new_products && negb force_save then Ok st
  else
    let st1 := {| all_products := all_products st ++ new_products;
                  batch_number := batch_number st;
                  batch_folder := batch_folder st |} in
    if (len new_products >=? batch_size) || force_save then
      let st2 := save_batch_to_file st1 new_products in
      Ok {| all_products := all_products st2;
            batch_number := batch_number st2 + 1;
            batch_folder := batch_folder st2 |}
    else Ok st1.

(** [extract_and_save_current_batch]: [except Exception] logs and returns. *)
Definition extract_and_save_current_batch (force_save : bool) (st : State)
    (evaluate : Exn EvalResult) : State :=
  match extract_and_save_body force_save st evaluate with
  | Ok st' => st'
  | Raise => st
  end.

(** [create_final_output] *)
Definition create_final_output (st : State) : RunOutput :=
  {| total_products := len (all_products st);
     total_batches := batch_number st - 1;
     out_batch_size := batch_size;
     out_base_url := base_url;
     out_products := all_products st |}.

(** The locals of [extract_product_data_in_batches] that live across
    iterations. *)
Record Locals : Type := mkLocals {
  last_product_count : Z;
  consecutive_same_count : Z
}.

(** [last_product_count = 0], [consecutive_same_count = 0] *)
Definition locals0 : Locals :=
  {| last_product_count := 0; consecutive_same_count := 0 |}.

(** The two [break] statements of the loop. *)
Inductive Exit : Type :=
| NoNewProducts   (* "No new products loading. Processing final batch." *)
| LimitReached.   (* "Reached maximum product limit. Stopping extraction." *)

(** How one pass through the [while True] body ends. *)
Inductive Step : Type :=
| Continue (l : Locals) (st : State)
| Break (why : Exit) (l : Locals) (st : State)
| Raised (st : State).

(** The stall counter after comparing [current_count] with
    [last_product_count] (the [if]/[else] at the head of the body). *)
Definition count_same (l : Locals) (current_count : Z) : Z :=
  if current_count =? last_product_count l
  then consecutive_same_count l + 1
  else 0.

(** One iteration of the [while True] body. *)
Definition iteration (l : Locals) (st : State) (p : Poll) : Step :=
  match scroll_and_count p with
  | Raise => Raised st
  | Ok current_count =>
    let consecutive := count_same l current_count in
    if (current_count =? last_product_count l)
       && (consecutive >=? max_consecutive_same)
    then
      Break NoNewProducts
        {| last_product_count := last_product_count l;
           consecutive_same_count := consecutive |}
        (extract_and_save_current_batch true st (page_evaluate p))
    else
      let st1 :=
        if current_count - len (all_products st) >=? batch_size
        then extract_and_save_current_batch false st (page_evaluate p)
        else st in
      let l1 := {| last_product_count := current_count;
                   consecutive_same_count := consecutive |} in
      if current_count >? MAX_EXPECTED_PRODUCTS
      then Break LimitReached l1
             (extract_and_save_current_batch true st1 (page_evaluate p))
      else Continue l1 st1
  end.

(** How a run over the polls supplied so far stands. *)
Inductive Outcome : Type :=
| Completed (why : Exit) (l : Locals) (st : State) (unread : list Poll)
| Failed (st : State)
| Polling (l : Locals) (st : State).

(** The [while True] loop, fed the polls of its successive iterations.
    [Polling] means every poll supplied was consumed and the loop is
    about to take another one. *)
Fixpoint loop (l : Locals) (st : State) (polls : list Poll) : Outcome :=
  match polls with
  | [] => Polling l st
  | p :: rest =>
    match iteration l st p with
    | Continue l' st' => loop l' st' rest
    | Break why l' st' => Completed why l' st' rest
    | Raised st' => Failed st'
    end
  end.

(** [extract_product_data_in_batches], from a fresh object: the loop, then
    [create_final_output] and [return True]; [return False] from the
    [except].  [None] while the loop is still polling. *)
Definition extract_product_data_in_batches (polls : list Poll)
    : option (bool * State * option RunOutput) :=
  match loop locals0 init polls with
  | Completed _ _ st _ => Some (true, st, Some (create_final_output st))
  | Failed st => Some (false, st, None)
  | Polling _ _ => None
  end.

End Automation.

Arguments EvalResult : clear implicits.
Arguments PyValue : clear implicits.
Arguments Poll : clear implicits.
Arguments BatchFile : clear implicits.
Arguments RunOutput : clear implicits.
Arguments State : clear implicits.
Arguments Step : clear implicits.
Arguments Outcome : clear implicits.

(** A poll that sees the snapshot [snap]: the count is its length and the
    page script returns it. *)
Definition sees {Product} (snap : list Product) : Poll Product :=
  {| scroll_and_count := Ok (len snap); page_evaluate := Ok (Records snap) |}.

(** A poll that counts [c] elements, whatever the page script gives. *)
Definition counts {Product} (c : Z) (e : Exn (EvalResult Product)) : Poll Product :=
  {| scroll_and_count := Ok c; page_evaluate := e |}.

(** Scenario A of the specification: snapshots of 0, 100, 250, 250, 250 and
    250 records, all of them prefixes of [snap]. *)
Definition scenario_A {Product} (snap : list Product) : list (Poll Product) :=
  sees <$> [take 0 snap; take 100 snap; snap; snap; snap; snap].

(** The record ids [0 .. 249] as a concrete catalogue. *)
Definition catalogue : list nat := seq 0 250.

(** The exit taken by an iteration, if it leaves the loop. *)
Definition exit_of {Product} (s : Step Product) : option Exit :=
  match s with
  | Break why _ _ => Some why
  | Continue _ _ | Raised _ => None
  end.


(** The object when an iteration ends. *)
Definition state_of {Product} (s : Step Product) : State Product :=
  match s with
  | Continue _ st | Break _ _ st | Raised st => st
  end.

(** Positional stability: every snapshot extends the one before it
    ([prev] is the one before the first) by appending at the end. *)
Fixpoint append_only {Product} (prev : list Product)
    (snaps : list (list Product)) : Prop :=
  match snaps with
  | [] => True
  | snap :: later => prev `prefix_of` snap ∧ append_only snap later
  end.

(** The stall criterion in the specification's words: the last [k] polls
    of the history [cs] each observed the count of the observation just
    before them.  The first poll is compared with the initial
    [last_product_count], 0. *)
Definition unchanged_run (k : nat) (cs : list Z) : Prop :=
  ∃ before a, 0 :: cs = before ++ replicate (S k) a.

(** The count the next poll is compared with after the history [cs]. *)
Definition previous_count (cs : list Z) : Z := default 0 (last cs).

(** ** The page script of [extract_all_products]

    The JavaScript handed to [page.evaluate].  Page text is modelled by
    Rocq strings: exact for ASCII text, with ASCII case mapping and ASCII
    white space.  A number is the decimal the script parses (JavaScript
    then rounds it to the nearest double). *)

Module PageScript.

(** A JavaScript number, [(-1)^negative * coefficient / 10^scale]. *)
Record Number : Type := mkNumber {
  negative : bool;
  coefficient : N;
  scale : nat
}.

(** The values a product field can hold. *)
Inductive JsValue : Type :=
| JNull
| JString (s : string)
| JNumber (n : Number).

(** The object [product = {}]: its own properties, and whether it still
    has [Object.prototype] (whose [__proto__] setter intercepts
    assignments to that one key). *)
Record JsObject : Type := mkObject {
  own : gmap string JsValue;
  has_prototype : bool
}.

Definition empty_object : JsObject := {| own := ∅; has_prototype := true |}.

(** [product[key] = v] *)
Definition assign (key : string) (v : JsValue) (o : JsObject) : JsObject :=
  if bool_decide (key = "__proto__") && has_prototype o then
    match v with
    | JNull => {| own := own o; has_prototype := false |}
    | JString _ | JNumber _ => o
    end
  else {| own := <[key := v]> (own o); has_prototype := has_prototype o |}.

(** *** String methods *)

(** White space stripped by [trim] and skipped by [parseInt] (ASCII part:
    JavaScript also strips U+00A0 and the other Unicode spaces, which
    ASCII text does not hold) *)
Definition is_space (ch : ascii) : bool :=
  let n := N_of_ascii ch in
  ((n =? 32) || ((9 <=? n) && (n <=? 13)))%N.

Definition lower_char (ch : ascii) : ascii :=
  let n := N_of_ascii ch in
  if ((65 <=? n) && (n <=? 90))%N then ascii_of_N (n + 32) else ch.

(** [s.toLowerCase()] *)
Fixpoint toLowerCase (s : string) : string :=
  match s with
  | EmptyString => EmptyString
  | String ch rest => String (lower_char ch) (toLowerCase rest)
  end.

Fixpoint trimStart (s : string) : string :=
  match s with
  | EmptyString => EmptyString
  | String ch rest => if is_space ch then trimStart rest else s
  end.

(** [s.trim()] *)
Definition trim (s : string) : string :=
  String.rev (trimStart (String.rev (trimStart s))).

(** [s.includes(sub)] *)
Fixpoint includes (sub s : string) : bool :=
  String.prefix sub s ||
  match s with
  | EmptyString => false
  | String _ rest => includes sub rest
  end.

Fixpoint drop_chars (n : nat) (s : string) : string :=
  match n, s with
  | O, _ => s
  | S _, EmptyString => EmptyString
  | S k, String _ rest => drop_chars k rest
  end.

(** [s.replace(/id:/i, '')]: the first match, in any letter case, removed *)
Fixpoint remove_id_marker (s : string) : string :=
  match s with
  | EmptyString => EmptyString
  | String ch rest =>
    if String.prefix "id:" (toLowerCase s) then drop_chars 3 s
    else String ch (remove_id_marker rest)
  end.

(** [s.replace(/s+/g, '_')]: every maximal run of the letter [s] becomes
    one underscore ([in_run]: the character before was an [s]). *)
Fixpoint replace_s_runs (in_run : bool) (s : string) : string :=
  match s with
  | EmptyString => EmptyString
  | String ch rest =>
    if Ascii.eqb ch "s"%char
    then if in_run then replace_s_runs true rest
         else String "_"%char (replace_s_runs true rest)
    else String ch (replace_s_runs false rest)
  end.

Definition is_digit (ch : ascii) : bool :=
  let n := N_of_ascii ch in ((48 <=? n) && (n <=? 57))%N.

(** [s.replace(/[^0-9.-]+/g, '')]: only digits, dots and hyphens stay *)
Fixpoint strip_non_numeric (s : string) : string :=
  match s with
  | EmptyString => EmptyString
  | String ch rest =>
    if is_digit ch || Ascii.eqb ch "."%char || Ascii.eqb ch "-"%char
    then String ch (strip_non_numeric rest)
    else strip_non_numeric rest
  end.

(** [s.split(sep)] for a non-empty [sep]: [skip] characters of a matched
    separator are still to be passed over, [piece] is the current piece
    in reverse. *)
Fixpoint split_go (sep : string) (skip : nat) (piece : string) (s : string)
    : list string :=
  match s with
  | EmptyString => [String.rev piece]
  | String ch rest =>
    match skip with
    | S k => split_go sep k piece rest
    | O =>
      if String.prefix sep s
      then String.rev piece :: split_go sep (String.length sep - 1) EmptyString rest
      else split_go sep O (String ch piece) rest
    end
  end.

Definition split (sep s : string) : list string := split_go sep O EmptyString s.

(** The separator literal of the script, as the bytes the source file
    holds between the quotes. *)
Definition separator : string :=
  String.string_of_list_ascii
    (ascii_of_nat <$> [195; 162; 226; 130; 172; 194; 162]%nat).

(** *** Number parsing *)

(** The longest run of leading digits: its value continuing [acc], how
    many digits were read, and the rest of the text. *)
Fixpoint digits (acc : N) (s : string) : N * nat * string :=
  match s with
  | EmptyString => (acc, O, s)
  | String ch rest =>
    if is_digit ch
    then let '(v, n, tail) := digits (acc * 10 + (N_of_ascii ch - 48)) rest in
         (v, S n, tail)
    else (acc, O, s)
  end.

(** An optional leading sign *)
Definition sign (s : string) : bool * string :=
  match s with
  | String "-"%char rest => (true, rest)
  | String "+"%char rest => (false, rest)
  | _ => (false, s)
  end.

(** [parseInt(s, 10)]; [None] is [NaN].  The result is the whole number
    the digits denote: the script's value as long as a double holds it
    exactly (every whole number up to 2^53 - 1); beyond that the script
    holds the nearest double, and [Infinity] from about 309 digits. *)
Definition parseInt (s : string) : option Number :=
  let '(neg, unsigned) := sign (trimStart s) in
  let '(v, n, _) := digits 0 unsigned in
  match n with
  | O => None
  | S _ => Some {| negative := neg; coefficient := v; scale := 0 |}
  end.

(** [parseFloat(s)] on text without exponent letters (the stripped price
    text holds only digits, dots and hyphens); [None] is [NaN]. *)
Definition parseFloat (s : string) : option Number :=
  let '(neg, unsigned) := sign (trimStart s) in
  let '(whole, n, tail) := digits 0 unsigned in
  let '(value, m) :=
    match tail with
    | String "."%char frac => let '(v, m, _) := digits whole frac in (v, m)
    | _ => (whole, O)
    end in
  match n, m with
  | O, O => None
  | _, _ => Some {| negative := neg; coefficient := value; scale := m |}
  end.

(** [Number.isNaN(x) ? null : x] *)
Definition number_or_null (x : option Number) : JsValue :=
  match x with
  | Some n => JNumber n
  | None => JNull
  end.

(** *** The rendered page *)

(** A details block [div.flex.flex-col.items-center]: the [innerText] of
    its label and value spans, [None] where the span is missing. *)
Record Section : Type := mkSection {
  label_span : option string;
  value_span : option string
}.

(** A candidate element [div.p-4.border.rounded-md]. *)
Record Container : Type := mkContainer {
  className : string;
  name_el : option string;      (* h3.font-medium *)
  info_el : option string;      (* div.flex.items-center.text-sm.text-muted-foreground *)
  detail_sections : list Section
}.

(** The [filter] callback that picks the product containers. *)
Definition is_product_container (el : Container) : bool :=
  let cls := className el in
  includes "flex-col" cls && includes "sm:flex-row" cls
  && includes "justify-between" cls.

(** [infoEl.innerText.split(...).map(p => p.trim()).filter(Boolean)] *)
Definition info_parts (text : string) : list string :=
  filter (λ part, part ≠ EmptyString) (trim <$> split separator text).

(** The [idStr] of a container, when the script reaches the [parseInt]. *)
Definition id_text (parts : list string) : option string :=
  match parts !! 0%nat with
  | Some part0 =>
    if includes "id:" (toLowerCase part0)
    then Some (trim (remove_id_marker part0))
    else None
  | None => None
  end.

(** The [if (infoEl) { ... }] block. *)
Definition read_info (info : option string) (product : JsObject) : JsObject :=
  match info with
  | None => product
  | Some text =>
    let parts := info_parts text in
    let product :=
      match id_text parts with
      | Some idStr => assign "id" (number_or_null (parseInt idStr)) product
      | None => product
      end in
    match parts !! 1%nat with
    | Some part1 => assign "category" (JString part1) product
    | None => product
    end
  end.

(** The key a details block is stored under; [None] when the block has
    no label text and is skipped. *)
Definition section_key (section : Section) : option string :=
  match trim <$> label_span section with
  | None | Some EmptyString => None
  | Some label => Some (replace_s_runs false (toLowerCase label))
  end.

(** [value ?? null] *)
Definition section_value (section : Section) : JsValue :=
  match trim <$> value_span section with
  | Some value => JString value
  | None => JNull
  end.

(** The [forEach] callback over the details blocks. *)
Definition read_section (product : JsObject) (section : Section) : JsObject :=
  match section_key section with
  | None => product
  | Some key => assign key (section_value section) product
  end.

(** The "optional numeric price parse". *)
Definition read_price (product : JsObject) : JsObject :=
  match own product !! "price" with
  | Some (JString (String ch rest)) =>
    let num := parseFloat (strip_non_numeric (String ch rest)) in
    assign "price_value" (number_or_null num) product
  | _ => product
  end.

(** The [map] callback: one product record from one container; [now] is
    [new Date().toISOString()]. *)
Definition extract_product (now : string) (container : Container) : JsObject :=
  let product := empty_object in
  let product :=
    match name_el container with
    | Some text => assign "name" (JString (trim text)) product
    | None => product
    end in
  let product := read_info (info_el container) product in
  let product := foldl read_section product (detail_sections container) in
  let product := read_price product in
  assign "extracted_at" (JString now) product.

(** What the script meets when it runs: the candidate elements
    [div.p-4.border.rounded-md] of the page, or a call inside the [try]
    that throws, [message] being [String(err)]. *)
Inductive Document : Type :=
| Rendered (candidates : list Container)
| Throws (message : string).

(** The whole script: the [try] block, [filter] then [map], and the
    [catch] that returns the error marker.  [clock i] is the time at which
    the [i]-th container is read. *)
Definition page_script (clock : nat → string) (doc : Document)
    : EvalResult JsObject :=
  match doc with
  | Rendered candidates =>
    Records (imap (λ i container, extract_product (clock i) container)
               (filter is_product_container candidates))
  | Throws message => ErrorMarker message
  end.

End PageScript.



(** A product card with the given price text. *)
Definition card_with_price (price : string) : PageScript.Container :=
  {| PageScript.className :=
       "flex flex-col sm:flex-row sm:items-center justify-between p-4 border rounded-md";
     PageScript.name_el := Some "Ultimate Clothing Tool";
     PageScript.info_el := Some "ID: 7";
     PageScript.detail_sections :=
       [ {| PageScript.label_span := Some "Price";
            PageScript.value_span := Some price |} ] |}.

(** What the locals hold while the loop is polling: the previous count,
    and the length of the current unchanged run. *)
Definition tracks (l : Locals) (cs : list Z) : Prop :=
  last_product_count l = previous_count cs ∧
  ∀ k : nat, Z.of_nat k ≤ consecutive_same_count l ↔ unchanged_run k cs.

(** The base URL of [main], after [rstrip('/')]. *)
Definition hiring_url : string := "https://hiring.idenhq.com".

(** The object after a run over four polls that all show the records 7
    and 8, with [batch_size = 5]. *)
Definition two_records_done : State nat :=
  {| all_products := [7; 8]%nat; batch_number := 2;
     batch_folder := [ {| bf_batch_number := 1; bf_products_in_batch := 2;
                          bf_total_products_so_far := 2;
                          bf_base_url := hiring_url;
                          bf_products := [7; 8]%nat |} ] |}.

(** The object a run has reached, however the run stands. *)
Definition outcome_state {Product} (o : Outcome Product) : State Product :=
  match o with
  | Completed _ _ st _ | Failed st | Polling _ st => st
  end.



(** A poll whose record extraction fails on the Python side: the call
    raises, or the marker carries an empty message, so that slicing the
    returned dict raises. *)
Definition extraction_fails {Product} (p : Poll Product) : Prop :=
  page_evaluate p = Raise ∨ page_evaluate p = Ok (ErrorMarker EmptyString).

(** What the batch folder of a sound object looks like: the files are
    numbered 1, 2, ... in the order written, and [batch_number] is the
    number of the next file. *)
Definition numbered {Product} (st : State Product) : Prop :=
  batch_number st = len (batch_folder st) + 1 ∧
  ∀ (i : nat) f, batch_folder st !! i = Some f → bf_batch_number f = Z.of_nat i + 1.

(** The metadata of a batch file agrees with its content and with the
    object that holds [total] records. *)
Definition file_consistent {Product} (base_url : string) (total : Z)
    (f : BatchFile Product) : Prop :=
  bf_products_in_batch f = len (bf_products f) ∧
  bf_products_in_batch f ≤ bf_total_products_so_far f ≤ total ∧
  bf_base_url f = base_url.

(** A batch file that met the threshold when it was written. *)
Definition full_batch {Product} (batch_size : Z) (f : BatchFile Product) : Prop :=
  batch_size ≤ bf_products_in_batch f.

(** The batches handed to [save_batch_to_file] together are exactly the
    accumulated collection: read in order, their products are
    [all_products]. *)
Definition partitioned {Product} (st : State Product) : Prop :=
  concat (bf_products <$> batch_folder st) = all_products st.

(** The loop-head state of a run over faithful polls whose last snapshot
    was [prev]: what is accumulated is a prefix of it, the last count is
    its length, and fewer than [batch_size] of its records are still to be
    accumulated. *)
Definition lags_below {Product} (batch_size : Z) (l : Locals) (st : State Product)
    (prev : list Product) : Prop :=
  all_products st `prefix_of` prev ∧
  last_product_count l = len prev ∧
  len prev - len (all_products st) < batch_size.

(** [k] zeros put before [s] *)
Fixpoint zero_fill (k : nat) (s : string) : string :=
  match k with
  | O => s
  | S k => String "0"%char (zero_fill k s)
  end.

(** Python's [format(n, "03d")]: the decimal digits, filled with zeros
    after the sign up to a total width of 3. *)
Definition format_03d (n : Z) : string :=
  match n with
  | Zneg p =>
    String "-"%char
      (zero_fill (2 - String.length (pretty (Zpos p))) (pretty (Zpos p)))
  | _ => zero_fill (3 - String.length (pretty n)) (pretty n)
  end.

(** [f"batch_{self.batch_number:03d}.json"], the name of a batch file
    within the batch folder ([save_batch_to_file]). *)
Definition batch_file_name (n : Z) : string :=
  "batch_" +:+ format_03d n +:+ ".json".

(** ** The menu walk of [navigate_to_products] *)

Module Navigation.

(** The four locators built for a menu entry, in the order of the
    [selectors] list: [button:has-text(..)], [a:has-text(..)],
    [[role="button"]:has-text(..)] and [text=..]. *)
Inductive Selector : Type :=
| ButtonHasText
| LinkHasText
| RoleButtonHasText
| TextIs.

#[global] Instance Selector_eq_dec : EqDecision Selector.
Proof. solve_decision. Defined.

Definition selectors : list Selector :=
  [ButtonHasText; LinkHasText; RoleButtonHasText; TextIs].

(** [navigation_steps]; the step name and the button text coincide. *)
Definition navigation_steps : list string :=
  ["Dashboard"; "Inventory"; "Products"; "Full Catalog"]%string.

(** What the [try] around one selector comes to: the element is not
    visible; or an [await] in it raises (the bare [except] then goes on to
    the next selector); or the element is clicked, the 1500 ms wait
    passes and [clicked] is set. *)
Inductive Attempt : Type :=
| Hidden
| Throws
| Clicks.

(** The page's answer to each selector of each step (steps counted from 0). *)
Definition Page : Type := nat → Selector → Attempt.

(** The inner [for selector in selectors] loop with its [break]. *)
Fixpoint try_selectors (answer : Selector → Attempt) (sels : list Selector)
    : option Selector :=
  match sels with
  | [] => None
  | sel :: rest =>
    match answer sel with
    | Clicks => Some sel
    | Hidden | Throws => try_selectors answer rest
    end
  end.

(** The outer [for step_name, button_text in navigation_steps] loop from
    step [i] on: whether every step was clicked, and the clicks that set
    [clicked], in order.  A step that no selector clicks ends the walk
    ([return False]). *)
Fixpoint click_steps (page : Page) (i : nat) (steps : list string)
    : bool * list (string * Selector) :=
  match steps with
  | [] => (true, [])
  | step :: rest =>
    match try_selectors (page i) selectors with
    | None => (false, [])
    | Some sel =>
      let '(ok, clicks) := click_steps page (S i) rest in
      (ok, (step, sel) :: clicks)
    end
  end.

(** The environment of one call: [arrive] is the URL test with the
    [goto] and wait it may trigger, [settle] the two waits after the
    walk; either may raise. *)
Record Env : Type := mkEnv {
  arrive : Exn unit;
  page : Page;
  settle : Exn unit
}.

(** [navigate_to_products]: the value returned, and the clicks made. *)
Definition navigate_to_products (env : Env) : bool * list (string * Selector) :=
  match arrive env with
  | Raise => (false, [])
  | Ok _ =>
    let '(ok, clicks) := click_steps (page env) 0 navigation_steps in
    if ok
    then match settle env with
         | Ok _ => (true, clicks)
         | Raise => (false, clicks)
         end
    else (false, clicks)
  end.

(** [sel'] comes before [sel] in the [selectors] list. *)
Definition tried_before (sel' sel : Selector) : Prop :=
  ∃ before after, selectors = before ++ sel :: after ∧ sel' ∈ before.

End Navigation.

(** The keys the details blocks of a container are stored under. *)
Definition section_keys (sections : list PageScript.Section) : gset string :=
  list_to_set (omap PageScript.section_key sections).

(** The fields the script sets by name. *)
Definition named_fields : gset string :=
  {[ "name"; "id"; "category"; "price_value"; "extracted_at" ]}%string.

(** Text without any digit, dot or hyphen: all of it is removed by
    [replace(/[^0-9.-]+/g, '')]. *)
Fixpoint numeric_free (s : string) : bool :=
  match s with
  | EmptyString => true
  | String ch rest =>
    negb (PageScript.is_digit ch || Ascii.eqb ch "."%char || Ascii.eqb ch "-"%char)
    && numeric_free rest
  end.

(** Text that does not go on with a digit. *)
Definition no_leading_digit (s : string) : bool :=
  match s with
  | EmptyString => true
  | String ch _ => negb (PageScript.is_digit ch)
  end.

(** Three snapshots of a growing page, and a poll whose scroll raises. *)
Definition growing_page : list (list nat) :=
  [[1; 2; 3]; [1; 2; 3; 4; 5]; [1; 2; 3; 4; 5]]%nat.

Definition broken_scroll : Poll nat :=
  {| scroll_and_count := Raise; page_evaluate := Raise |}.

(** The object after one poll that shows the records 1, 2 and 3, with
    [batch_size = 2]. *)
Definition three_records_saved : State nat :=
  {| all_products := [1; 2; 3]%nat; batch_number := 2;
     batch_folder := [ {| bf_batch_number := 1; bf_products_in_batch := 3;
                          bf_total_products_so_far := 3;
                          bf_base_url := hiring_url;
                          bf_products := [1; 2; 3]%nat |} ] |}.

(** A product card whose info line uses a bar, not the separator literal. *)
Definition card_with_bar : PageScript.Container :=
  {| PageScript.className :=
       "flex flex-col sm:flex-row sm:items-center justify-between p-4 border rounded-md";
     PageScript.name_el := Some "Ultimate Clothing Tool";
     PageScript.info_el := Some "ID: 42 | Tools";
     PageScript.detail_sections := [] |}.

(** How many accumulated records no batch file holds. *)
Definition unsaved_count {Product} (st : State Product) : Z :=
  len (all_products st) - len (concat (bf_products <$> batch_folder st)).

(** The [except] branch of [save_batch_to_file] logs a failed write and
    returns, and [extract_and_save_current_batch] advances [batch_number]
    after the call all the same: the object goes on as if the file had
    been written, and [batch_folder] lists the batches handed to
    [save_batch_to_file].  With [written n] telling whether the write of
    [batch_n.json] went through, these are the files the folder holds. *)
Definition on_disk {Product} (written : Z → bool) (st : State Product)
    : list (BatchFile Product) :=
  filter (λ f, written (bf_batch_number f)) (batch_folder st).

(** Every write of the run so far went through. *)
Definition all_written {Product} (written : Z → bool) (st : State Product) : Prop :=
  ∀ n, 1 ≤ n < batch_number st → written n = true.




(** ** The flush, [extract_and_save_current_batch] *)

Section FlushFacts.

Context {Product : Type}.
Variable batch_size : Z.
Variable base_url : string.

Abbreviation flush := (extract_and_save_current_batch (Product:=Product) batch_size base_url).

Lemma is_empty_nil {A} (xs : list A) : is_empty xs = true ↔ xs = [].
Proof. destruct xs; simpl; split; congruence. Qed.

(** The flush on a list-valued extraction, spelled out. *)
Lemma flush_list force st e items :
  extract_all_products e = Ok (PyList items) →
  flush force st e =
    let new_products := drop (length (all_products st)) items in
    if is_empty new_products && negb force then st
    else if (len new_products >=? batch_size) || force
         then {| all_products := all_products st ++ new_products;
                 batch_number := batch_number st + 1;
                 batch_folder := batch_folder st ++
                   [ {| bf_batch_number := batch_number st;
                        bf_products_in_batch := len new_products;
                        bf_total_products_so_far :=
                          len (all_products st ++ new_products);
                        bf_base_url := base_url;
                        bf_products := new_products |} ] |}
         else {| all_products := all_products st ++ new_products;
                 batch_number := batch_number st;
                 batch_folder := batch_folder st |}.
Proof.
  intros He. unfold extract_and_save_current_batch, extract_and_save_body.
  rewrite He. simpl.
  destruct (is_empty _ && negb force); [done|].
  destruct ((_ >=? _) || force); reflexivity.
Qed.

(** A failed extraction leaves the object as it was. *)
Lemma flush_raise force st e :
  (∀ items, extract_all_products e ≠ Ok (PyList items)) →
  flush force st e = st.
Proof.
  intros He. unfold extract_and_save_current_batch, extract_and_save_body.
  destruct (extract_all_products e) as [[items|err]|]; simpl; try done.
  by destruct (He items).
Qed.

(** The accumulated collection after a flush: the old one followed by the
    slice of the snapshot beyond its length. *)
Lemma flush_all_products force st e items :
  extract_all_products e = Ok (PyList items) →
  all_products (flush force st e) =
    all_products st ++ drop (length (all_products st)) items.
Proof.
  intros He. rewrite (flush_list _ _ _ _ He). cbv zeta.
  destruct (is_empty _ && negb force) eqn:Hemp.
  - apply andb_true_iff in Hemp as [Hemp _]. apply is_empty_nil in Hemp.
    rewrite Hemp. by rewrite app_nil_r.
  - by destruct ((_ >=? _) || force).
Qed.

(** The flush never shrinks or rewrites what is accumulated. *)
Lemma flush_extends force st e :
  all_products st `prefix_of` all_products (flush force st e).
Proof.
  destruct (extract_all_products e) as [[items|err]|] eqn:He.
  - rewrite (flush_all_products _ _ _ _ He). by apply prefix_app_r.
  - rewrite flush_raise; [done | congruence].
  - rewrite flush_raise; [done | congruence].
Qed.

(** On a snapshot that extends the accumulated collection, the flush
    makes the collection equal to the snapshot. *)
Lemma flush_catches_up force st snap :
  all_products st `prefix_of` snap →
  all_products (flush force st (Ok (Records snap))) = snap.
Proof.
  intros [k ->]. rewrite (flush_all_products _ _ _ (all_products st ++ k)); [|done].
  by rewrite drop_app_length.
Qed.

(** A flush that saves: forced, or with a non-empty delta that meets the
    threshold.  The batch file holds exactly the delta. *)
Lemma flush_writes force st snap new_products :
  snap = all_products st ++ new_products →
  force = true ∨ (0 < len new_products ∧ batch_size ≤ len new_products) →
  flush force st (Ok (Records snap)) =
    {| all_products := snap;
       batch_number := batch_number st + 1;
       batch_folder := batch_folder st ++
         [ {| bf_batch_number := batch_number st;
              bf_products_in_batch := len new_products;
              bf_total_products_so_far := len snap;
              bf_base_url := base_url;
              bf_products := new_products |} ] |}.
Proof.
  intros -> Hsave. rewrite (flush_list _ _ _ (all_products st ++ new_products)); [|done].
  cbv zeta. rewrite drop_app_length.
  destruct Hsave as [-> | [Hpos Hsize]].
  - by rewrite andb_false_r, orb_true_r.
  - assert (is_empty new_products = false) as -> by by destruct new_products.
    assert ((len new_products >=? batch_size) = true) as -> by lia.
    done.
Qed.

End FlushFacts.

(** ** The loop, [extract_product_data_in_batches] *)

Section LoopFacts.

Context {Product : Type}.
Variable batch_size : Z.
Variable base_url : string.

Abbreviation flush := (extract_and_save_current_batch (Product:=Product) batch_size base_url).
Abbreviation body := (iteration (Product:=Product) batch_size base_url).
Abbreviation run := (loop (Product:=Product) batch_size base_url).

(** Polls are consumed front to back: a run over [polls ++ more] is the
    run over [polls], resumed on [more] if it is still polling. *)
Lemma loop_app polls more l st :
  run l st (polls ++ more) =
    match run l st polls with
    | Polling l' st' => run l' st' more
    | Completed why l' st' unread => Completed why l' st' (unread ++ more)
    | Failed st' => Failed st'
    end.
Proof.
  revert l st. induction polls as [|p polls IH]; intros l st; simpl; [done|].
  destruct (body l st p); auto.
Qed.

(** Both [break]s are preceded by a forced flush on the poll's page, from
    the state [st] itself or from [st] after the threshold flush. *)
Lemma break_forces_flush l st p why l' st' :
  body l st p = Break why l' st' →
  ∃ st1, st' = flush true st1 (page_evaluate p) ∧
         (st1 = st ∨ st1 = flush false st (page_evaluate p)).
Proof.
  unfold iteration. destruct (scroll_and_count p) as [c|]; [|done].
  destruct ((c =? _) && _).
  - intros [= <- <- <-]. eauto.
  - destruct (c - _ >=? batch_size), (c >? MAX_EXPECTED_PRODUCTS);
      intros [= <- <- <-]; eauto.
Qed.

(** While the loop keeps polling, the counter stays below the threshold,
    and the last count stays within the ceiling. *)
Lemma continue_bounds l st p l' st' :
  body l st p = Continue l' st' →
  0 ≤ consecutive_same_count l →
  0 ≤ consecutive_same_count l' < max_consecutive_same ∧
  last_product_count l' ≤ MAX_EXPECTED_PRODUCTS ∧
  scroll_and_count p = Ok (last_product_count l') ∧
  consecutive_same_count l' = count_same l (last_product_count l').
Proof.
  unfold iteration, count_same, max_consecutive_same, MAX_EXPECTED_PRODUCTS.
  destruct (scroll_and_count p) as [c|]; [|done].
  destruct (c =? last_product_count l) eqn:Hc; simpl.
  - destruct (_ >=? 3) eqn:H3; simpl; [done|].
    destruct (c >? 50000) eqn:Hm; [done|].
    intros [= <- <-] ?. simpl. rewrite Hc. repeat split; lia.
  - destruct (c >? 50000) eqn:Hm; [done|].
    intros [= <- <-] ?. simpl. rewrite Hc. repeat split; lia.
Qed.

(** The locals of a run from a fresh start that is still polling. *)
Lemma polling_bounds polls l st :
  run locals0 init polls = Polling l st →
  0 ≤ consecutive_same_count l < max_consecutive_same ∧
  last_product_count l ≤ MAX_EXPECTED_PRODUCTS.
Proof.
  assert (Hgen : ∀ polls l0 st0 l st,
    0 ≤ consecutive_same_count l0 < max_consecutive_same →
    last_product_count l0 ≤ MAX_EXPECTED_PRODUCTS →
    run l0 st0 polls = Polling l st →
    0 ≤ consecutive_same_count l < max_consecutive_same ∧
    last_product_count l ≤ MAX_EXPECTED_PRODUCTS).
  { clear. induction polls as [|p polls IH]; intros l0 st0 l st Hc Hl; simpl.
    - by intros [= <- <-].
    - destruct (body l0 st0 p) as [l1 st1| |] eqn:Hstep; try done.
      apply continue_bounds in Hstep as (? & ? & _); [|lia].
      by apply IH. }
  apply Hgen; unfold max_consecutive_same, MAX_EXPECTED_PRODUCTS; simpl; lia.
Qed.

(** The unchanged run grows by one exactly when the new count repeats the
    previous observation. *)
Lemma previous_count_last cs a :
  last (0 :: cs) = Some a → previous_count cs = a.
Proof.
  unfold previous_count. destruct cs as [|c0 cs]; [by intros [= <-]|].
  rewrite last_cons_cons. by intros ->.
Qed.

Lemma last_replicate_end (before : list Z) k a :
  last (before ++ replicate (S k) a) = Some a.
Proof. rewrite replicate_S_end, app_assoc. apply last_snoc. Qed.

Lemma unchanged_run_snoc k cs c :
  unchanged_run (S k) (cs ++ [c]) ↔ c = previous_count cs ∧ unchanged_run k cs.
Proof.
  unfold unchanged_run. split.
  - intros (before & a & Heq).
    rewrite (replicate_S_end (S k)), app_assoc, app_comm_cons in Heq.
    apply app_inj_tail in Heq as [Heq ->]. split; [|eauto].
    symmetry. apply previous_count_last. rewrite Heq. apply last_replicate_end.
  - intros [-> (before & a & Heq)]. exists before, a.
    rewrite (replicate_S_end (S k)), app_assoc, <- Heq, app_comm_cons.
    do 2 f_equal. apply previous_count_last. rewrite Heq. apply last_replicate_end.
Qed.

Lemma unchanged_run_0 cs : unchanged_run 0 cs.
Proof.
  exists (List.removelast (0 :: cs)), (List.last (0 :: cs) 0).
  by apply app_removelast_last.
Qed.

(** A poll that changes the count ends every unchanged run. *)
Lemma unchanged_run_reset k cs c :
  c ≠ previous_count cs → ¬ unchanged_run (S k) (cs ++ [c]).
Proof. intros Hne Hrun. by apply unchanged_run_snoc in Hrun as [? _]. Qed.

Lemma tracks_fresh : tracks locals0 [].
Proof.
  split; [done|]. intros k. simpl. split.
  - intros Hk. assert (k = 0%nat) as -> by lia. apply unchanged_run_0.
  - intros (before & a & Heq). destruct k; [done|].
    destruct before as [|? [|? ?]]; simpl in Heq; done.
Qed.

Lemma tracks_step l st p l' st' cs :
  tracks l cs →
  body l st p = Continue l' st' →
  tracks l' (cs ++ [last_product_count l']).
Proof.
  intros [Hlast Hrun]. unfold iteration, count_same.
  destruct (scroll_and_count p) as [c|]; [|done].
  destruct (c =? last_product_count l) eqn:Hc; simpl.
  - destruct (_ >=? max_consecutive_same); simpl; [done|].
    destruct (c >? MAX_EXPECTED_PRODUCTS); [done|].
    intros [= <- <-]. simpl. apply Z.eqb_eq in Hc.
    split; [unfold previous_count; by rewrite last_snoc|].
    assert (0 ≤ consecutive_same_count l) by (apply (Hrun 0%nat), unchanged_run_0).
    intros k. simpl. destruct k as [|k].
    + split; [intros; apply unchanged_run_0 | lia].
    + rewrite unchanged_run_snoc, <- Hlast, <- Hrun. lia.
  - destruct (c >? MAX_EXPECTED_PRODUCTS); [done|].
    intros [= <- <-]. simpl. apply Z.eqb_neq in Hc.
    split; [unfold previous_count; by rewrite last_snoc|].
    intros k. simpl. destruct k as [|k].
    + split; [intros; apply unchanged_run_0 | lia].
    + split; [lia|]. intros Hk. apply unchanged_run_reset in Hk; [done|congruence].
Qed.

(** After a run over polls that counted [cs], the locals track [cs]. *)
Lemma polling_tracks polls cs l st :
  scroll_and_count <$> polls = Ok <$> cs →
  run locals0 init polls = Polling l st →
  tracks l cs.
Proof.
  assert (Hgen : ∀ polls cs0 cs l0 st0 l st,
    tracks l0 cs0 →
    scroll_and_count <$> polls = Ok <$> cs →
    run l0 st0 polls = Polling l st →
    tracks l (cs0 ++ cs)).
  { clear. induction polls as [|p polls IH]; intros cs0 cs l0 st0 l st Ht Hcs; simpl.
    - destruct cs; [|done]. intros [= <- <-]. by rewrite app_nil_r.
    - destruct cs as [|c cs]; [done|]. simpl in Hcs.
      injection Hcs as Hp Hcs.
      destruct (body l0 st0 p) as [l1 st1| |] eqn:Hstep; try done.
      intros Hrun. pose proof (tracks_step _ _ _ _ _ _ Ht Hstep) as Ht1.
      apply continue_bounds in Hstep as (_ & _ & Hc & _).
      2:{ destruct Ht as [_ Hr]. apply (Hr 0%nat), unchanged_run_0. }
      rewrite Hp in Hc. injection Hc as ->.
      rewrite (cons_middle (last_product_count l1)), app_assoc. by eapply IH. }
  intros Hcs Hrun. by apply (Hgen polls [] cs locals0 init l st tracks_fresh).
Qed.

(** The stall [break] is taken exactly when the poll repeats the previous
    count with the counter already at 2. *)
Lemma stall_exit l st p c :
  scroll_and_count p = Ok c →
  exit_of (body l st p) = Some NoNewProducts ↔
  c = last_product_count l ∧ 2 ≤ consecutive_same_count l.
Proof.
  intros Hp. unfold iteration, count_same, max_consecutive_same. rewrite Hp.
  destruct (c =? last_product_count l) eqn:Hc; simpl.
  - apply Z.eqb_eq in Hc.
    destruct (_ >=? 3) eqn:H3; simpl.
    + split; [intros _; lia | done].
    + destruct (c >? MAX_EXPECTED_PRODUCTS); simpl; split; try done; lia.
  - apply Z.eqb_neq in Hc.
    destruct (c >? MAX_EXPECTED_PRODUCTS); simpl; split; try done; lia.
Qed.

Lemma stall_iff_unchanged l st p c cs :
  tracks l cs →
  scroll_and_count p = Ok c →
  exit_of (body l st p) = Some NoNewProducts ↔ unchanged_run 3 (cs ++ [c]).
Proof.
  intros [Hlast Hrun] Hp.
  rewrite (stall_exit _ _ _ _ Hp), unchanged_run_snoc, <- Hlast, <- Hrun.
  simpl. lia.
Qed.

(** Which [break] was taken, read off the poll's count. *)
Lemma break_reason l st p c why l' st' :
  scroll_and_count p = Ok c →
  body l st p = Break why l' st' →
  (why = NoNewProducts ∧ exit_of (body l st p) = Some NoNewProducts) ∨
  (why = LimitReached ∧ MAX_EXPECTED_PRODUCTS < c).
Proof.
  intros Hp Hstep. rewrite Hstep. simpl. revert Hstep.
  unfold iteration. rewrite Hp.
  destruct ((c =? _) && _).
  - intros [= <- _ _]. by left.
  - destruct (c >? MAX_EXPECTED_PRODUCTS) eqn:Hm; [|done].
    intros [= <- _ _]. right. split; [done|]. lia.
Qed.

(** A run that completes on its last poll was polling until then. *)
Lemma completed_on_last polls p l st why l' st' :
  run l st (polls ++ [p]) = Completed why l' st' [] →
  ∃ l1 st1, run l st polls = Polling l1 st1 ∧ body l1 st1 p = Break why l' st'.
Proof.
  rewrite loop_app. destruct (run l st polls) as [? ? ? unread| |l1 st1]; simpl.
  - intros [= _ _ _ Hnil]. by destruct unread.
  - done.
  - destruct (body l1 st1 p) eqn:Hstep; try done.
    intros [= <- <- <-]. eauto.
Qed.

(** Termination by a decreasing measure: each poll that does not leave
    the loop either raises the last count or advances the counter. *)
Lemma terminates_from (f : nat → Poll Product) (c : nat → Z) (m : nat) :
  (∀ i, scroll_and_count (f i) = Ok (c i)) →
  (∀ i, c i ≤ c (S i)) →
  ∀ l st k,
    0 ≤ consecutive_same_count l < max_consecutive_same →
    last_product_count l ≤ c k →
    last_product_count l ≤ MAX_EXPECTED_PRODUCTS →
    3 * (MAX_EXPECTED_PRODUCTS - last_product_count l)
      + (2 - consecutive_same_count l) ≤ Z.of_nat m →
    ∃ n why l' st',
      (n ≤ m)%nat ∧
      run l st (f <$> seq k (S n)) = Completed why l' st' [].
Proof.
  intros Hf Hmono. unfold max_consecutive_same, MAX_EXPECTED_PRODUCTS.
  induction m as [|m IH]; intros l st k Hcons Hle Hmax Hmeasure.
  - exists 0%nat. simpl. unfold iteration, count_same, max_consecutive_same,
      MAX_EXPECTED_PRODUCTS. rewrite Hf.
    destruct (c k =? last_product_count l) eqn:Hc; simpl.
    + destruct (_ >=? 3) eqn:H3; simpl; [eauto 10|]. lia.
    + destruct (c k >? 50000) eqn:Hm; [eauto 10|]. lia.
  - destruct (body l st (f k)) as [l1 st1|why l1 st1|st1] eqn:Hstep.
    + pose proof Hstep as Hb.
      apply continue_bounds in Hb as (Hcons1 & Hmax1 & Hc1 & Hcnt); [|lia].
      rewrite Hf in Hc1. injection Hc1 as Hc1.
      destruct (IH l1 st1 (S k)) as (n & why & l' & st' & Hn & Hrun).
      * done.
      * rewrite <- Hc1. apply Hmono.
      * done.
      * rewrite Hcnt, <- Hc1. unfold count_same.
        destruct (c k =? last_product_count l) eqn:Hc; lia.
      * exists (S n), why, l', st'. split; [lia|].
        change (seq k (S (S n))) with (k :: seq (S k) (S n)).
        rewrite fmap_cons. cbn [loop]. by rewrite Hstep.
    + exists 0%nat, why, l1, st1. split; [lia|]. simpl. by rewrite Hstep.
    + unfold iteration in Hstep. rewrite Hf in Hstep.
      destruct ((c k =? _) && _); [done|].
      by destruct (c k >? MAX_EXPECTED_PRODUCTS).
Qed.

End LoopFacts.

(** ** Properties of the accumulator and of the loop *)

Section LoopClaims.

Context {Product : Type}.
Variable batch_size : Z.
Variable base_url : string.

Abbreviation flush := (extract_and_save_current_batch (Product:=Product) batch_size base_url).
Abbreviation body := (iteration (Product:=Product) batch_size base_url).
Abbreviation run := (loop (Product:=Product) batch_size base_url).

(** While the loop runs over append-only snapshots, what is accumulated is
    a prefix of the snapshot just seen; the forced flush before a [break]
    then makes it the whole snapshot. *)
Lemma loop_collects (snaps : list (list Product)) :
  ∀ prev l st why l' st' unread,
    all_products st `prefix_of` prev →
    append_only prev snaps →
    run l st (sees <$> snaps) = Completed why l' st' unread →
    ∃ earlier final later,
      snaps = earlier ++ final :: later ∧
      unread = sees <$> later ∧
      all_products st' = final.
Proof.
  induction snaps as [|snap snaps IH]; intros prev l st why l' st' unread Hpre Hsnaps;
    simpl; [done|].
  destruct Hsnaps as [Hprev Hlater].
  assert (Hst : all_products st `prefix_of` snap) by by etrans.
  destruct (body l st (sees snap)) as [l1 st1|why1 l1 st1|st1] eqn:Hstep; [| |done].
  - intros Hrun.
    assert (Hst1 : all_products st1 `prefix_of` snap).
    { revert Hstep. unfold iteration. simpl.
      destruct (_ && _); [done|].
      destruct (_ >=? batch_size), (_ >? MAX_EXPECTED_PRODUCTS); intros [= _ <-];
        try done.
      by rewrite flush_catches_up. }
    destruct (IH snap l1 st1 why l' st' unread Hst1 Hlater Hrun)
      as (earlier & final & later & -> & -> & <-).
    by exists (snap :: earlier), (all_products st'), later.
  - intros [= <- <- <- <-].
    apply break_forces_flush in Hstep as (st0 & -> & Hst0). simpl.
    exists [], snap, snaps. repeat split.
    apply flush_catches_up.
    destruct Hst0 as [-> | ->]; simpl; [done|]. by rewrite flush_catches_up.
Qed.

(** C1. Over snapshots that are positionally stable (each extends the one
    before it by appending, so their lengths never decrease), when the loop
    has terminated the accumulated collection [all_products] is exactly the
    last snapshot taken: the one of the poll on which the loop broke, every
    later one being unread.  Equality of the two lists means no record is
    repeated and none is missing; the consolidated output holds the same
    list. *)
Theorem accumulated_is_last_snapshot (snaps : list (list Product)) why l st unread :
  append_only [] snaps →
  run locals0 init (sees <$> snaps) = Completed why l st unread →
  ∃ earlier final later,
    snaps = earlier ++ final :: later ∧
    unread = sees <$> later ∧
    all_products st = final ∧
    out_products (create_final_output batch_size base_url st) = final ∧
    total_products (create_final_output batch_size base_url st) = len final.
Proof.
  intros Hsnaps Hrun.
  destruct (loop_collects snaps [] locals0 init why l st unread)
    as (earlier & final & later & -> & -> & <-); [done..|].
  by exists earlier, (all_products st), later.
Qed.


(** C4. For every endless sequence of polls whose counts never decrease,
    the loop terminates, within [3 * 50000 + 3] polls: either it exits on
    the stall path, the last 3 polls having left the count unchanged, or it
    exits on the ceiling path, the last count exceeding 50000.  The method
    then returns [True] with the consolidated output. *)
Theorem loop_terminates (f : nat → Poll Product) (c : nat → Z) :
  (∀ i, scroll_and_count (f i) = Ok (c i)) →
  (∀ i, 0 ≤ c i) →
  (∀ i, c i ≤ c (S i)) →
  ∃ n why l st,
    Z.of_nat n ≤ 3 * MAX_EXPECTED_PRODUCTS + 3 ∧
    run locals0 init (f <$> seq 0 n) = Completed why l st [] ∧
    extract_product_data_in_batches batch_size base_url (f <$> seq 0 n) =
      Some (true, st, Some (create_final_output batch_size base_url st)) ∧
    ((why = NoNewProducts ∧ unchanged_run 3 (c <$> seq 0 n)) ∨
     (why = LimitReached ∧ ∃ j, n = S j ∧ MAX_EXPECTED_PRODUCTS < c j)).
Proof.
  intros Hf Hpos Hmono.
  destruct (terminates_from batch_size base_url f c
              (Z.to_nat (3 * MAX_EXPECTED_PRODUCTS + 2)) Hf Hmono locals0 init 0%nat)
    as (n & why & l & st & Hn & Hrun).
  { unfold max_consecutive_same. simpl. lia. }
  { simpl. apply Hpos. }
  { unfold MAX_EXPECTED_PRODUCTS. simpl. lia. }
  { unfold MAX_EXPECTED_PRODUCTS. simpl. lia. }
  exists (S n), why, l, st. split; [unfold MAX_EXPECTED_PRODUCTS in *; lia|].
  split; [done|]. split.
  { unfold extract_product_data_in_batches. by rewrite Hrun. }
  rewrite seq_S, !fmap_app in *. simpl in *.
  apply completed_on_last in Hrun as (l1 & st1 & Hrun & Hstep).
  destruct (break_reason _ _ _ _ _ (c n) _ _ _ (Hf n) Hstep) as [[-> Hstall]|[-> Hmax]].
  - left. split; [done|].
    eapply stall_iff_unchanged; [|apply Hf|exact Hstall].
    eapply polling_tracks; [|exact Hrun].
    rewrite <- !list_fmap_compose. apply list_fmap_ext. intros _ i _. apply Hf.
  - right. eauto.
Qed.

(** The length of what is accumulated once a flush has caught up with a
    snapshot at least as long. *)
Lemma flush_length force st e items :
  extract_all_products e = Ok (PyList items) →
  (length (all_products st) ≤ length items)%nat →
  length (all_products (flush force st e)) = length items.
Proof.
  intros He Hle. rewrite (flush_all_products _ _ _ _ _ _ He).
  rewrite length_app, length_drop. lia.
Qed.

(** C5. Whenever a poll counts more than 50000 elements, the loop takes
    the ceiling [break] on that very poll after a forced flush, and every
    later poll stays unread; if the page script returns as many records as
    were counted and no fewer than are already accumulated,
    [total_products] of the final output is that count. *)
Theorem ceiling_stops_the_loop polls l st p c rest :
  run locals0 init polls = Polling l st →
  scroll_and_count p = Ok c →
  MAX_EXPECTED_PRODUCTS < c →
  ∃ l' st1,
    (st1 = st ∨ st1 = flush false st (page_evaluate p)) ∧
    run locals0 init (polls ++ p :: rest) =
      Completed LimitReached l' (flush true st1 (page_evaluate p)) rest ∧
    (∀ snap, page_evaluate p = Ok (Records snap) →
       len snap = c →
       (length (all_products st) ≤ length snap)%nat →
       total_products (create_final_output batch_size base_url
                         (flush true st1 (page_evaluate p))) = c).
Proof.
  intros Hrun Hp Hc.
  destruct (polling_bounds _ _ _ _ _ Hrun) as [_ Hlast].
  assert (Hne : (c =? last_product_count l) = false) by (apply Z.eqb_neq; lia).
  assert (Hgt : (c >? MAX_EXPECTED_PRODUCTS) = true) by lia.
  set (st1 := if c - len (all_products st) >=? batch_size
              then flush false st (page_evaluate p) else st).
  assert (Hstep : body l st p =
    Break LimitReached {| last_product_count := c; consecutive_same_count := 0 |}
      (flush true st1 (page_evaluate p))).
  { unfold iteration, count_same. by rewrite Hp, Hne, Hgt. }
  exists {| last_product_count := c; consecutive_same_count := 0 |}, st1.
  split; [subst st1; destruct (_ >=? batch_size); auto|].
  split; [rewrite loop_app, Hrun; simpl; by rewrite Hstep|].
  intros snap He <- Hlen. unfold create_final_output, len. simpl. f_equal.
  rewrite He. apply flush_length; [done|].
  subst st1. destruct (_ >=? batch_size); [|done].
  rewrite He. by rewrite (flush_length false st _ snap).
Qed.

(** C6. The flush is idempotent in what it accumulates: after one call,
    a second call on the same page computes an empty delta (the slice of
    the snapshot at the accumulated length), leaves [all_products] as it
    is, and without [force_save] changes nothing at all. *)
Theorem flush_twice_adds_nothing force1 force2 st e :
  let st1 := flush force1 st e in
  (∀ items, extract_all_products e = Ok (PyList items) →
     drop (length (all_products st1)) items = []) ∧
  all_products (flush force2 st1 e) = all_products st1 ∧
  flush false st1 e = st1.
Proof.
  intros st1.
  assert (Hdelta : ∀ items, extract_all_products e = Ok (PyList items) →
            drop (length (all_products st1)) items = []).
  { intros items He. subst st1. rewrite (flush_all_products _ _ _ _ _ _ He).
    apply drop_ge. rewrite length_app, length_drop. lia. }
  split; [done|].
  destruct (extract_all_products e) as [[items|err]|] eqn:He.
  - split.
    + rewrite (flush_all_products _ _ force2 st1 e items He).
      by rewrite (Hdelta items eq_refl), app_nil_r.
    + rewrite (flush_list _ _ false st1 e items He). cbv zeta.
      by rewrite (Hdelta items eq_refl).
  - assert (Hno : ∀ items, extract_all_products e ≠ Ok (PyList items)) by congruence.
    by rewrite !(flush_raise _ _ _ st1 e Hno).
  - assert (Hno : ∀ items, extract_all_products e ≠ Ok (PyList items)) by congruence.
    by rewrite !(flush_raise _ _ _ st1 e Hno).
Qed.

(** C9. If the page script throws during a poll (its [catch] hands back
    the marker with the message [String(err)], never empty for an error
    object), [extract_all_products] returns the empty list, the iteration
    behaves as on an empty snapshot, leaves the accumulated collection
    unchanged and does not raise; unless the poll meets the stall or the
    ceiling condition, the loop goes on to the next poll with the object
    untouched. *)
Theorem page_error_is_empty_snapshot err l st c rest :
  truthy err = true →
  let p := counts c (Ok (ErrorMarker err)) in
  extract_all_products (page_evaluate p) = Ok (PyList []) ∧
  body l st p = body l st (counts c (Ok (Records []))) ∧
  all_products (state_of (body l st p)) = all_products st ∧
  (∀ st', body l st p ≠ Raised st') ∧
  (¬ (c = last_product_count l ∧ 2 ≤ consecutive_same_count l) →
   c ≤ MAX_EXPECTED_PRODUCTS →
   run l st (p :: rest) =
     run {| last_product_count := c;
            consecutive_same_count := count_same l c |} st rest).
Proof.
  intros Herr p.
  assert (He : extract_all_products (page_evaluate p) = Ok (PyList [])).
  { simpl. unfold mbind, Exn_bind. by rewrite Herr. }
  assert (Hflush : ∀ force st0, flush force st0 (page_evaluate p) =
                     flush force st0 (Ok (Records []))).
  { intros force st0. by rewrite (flush_list _ _ _ _ _ [] He),
      (flush_list _ _ _ _ (Ok (Records [])) []). }
  assert (Hall : ∀ force st0, all_products (flush force st0 (page_evaluate p))
                   = all_products st0).
  { intros force st0. rewrite (flush_all_products _ _ _ _ _ _ He).
    by rewrite drop_nil, app_nil_r. }
  assert (Hsoft : ∀ st0, flush false st0 (page_evaluate p) = st0).
  { intros st0. rewrite (flush_list _ _ _ _ _ _ He). by rewrite drop_nil. }
  split; [done|]. split; [|split; [|split]].
  - unfold iteration. change (scroll_and_count p) with (Ok c (A:=Z)).
    simpl scroll_and_count. cbv iota. by rewrite !Hflush.
  - unfold iteration. change (scroll_and_count p) with (Ok c (A:=Z)). cbv iota zeta.
    rewrite Hsoft.
    destruct (_ && _); simpl; [apply Hall|].
    destruct (_ >=? batch_size), (_ >? MAX_EXPECTED_PRODUCTS); simpl;
      by rewrite ?Hall.
  - intros st'. unfold iteration. change (scroll_and_count p) with (Ok c (A:=Z)).
    cbv iota zeta. destruct (_ && _); [done|].
    by destruct (_ >? MAX_EXPECTED_PRODUCTS).
  - intros Hnostall Hc. cbn [loop]. unfold iteration.
    change (scroll_and_count p) with (Ok c (A:=Z)). cbv iota zeta.
    rewrite Hsoft.
    assert ((c =? last_product_count l)
            && (count_same l c >=? max_consecutive_same) = false) as ->.
    { unfold count_same, max_consecutive_same.
      destruct (c =? last_product_count l) eqn:Heq; [|done]. simpl.
      apply Z.eqb_eq in Heq. lia. }
    assert ((c >? MAX_EXPECTED_PRODUCTS) = false) as -> by lia.
    by destruct (_ >=? batch_size).
Qed.

(** C10. A forced flush that finds nothing new still writes a batch file,
    with an empty [products] list and [products_in_batch = 0]; it advances
    the batch number and so is counted in [total_batches].  Every [break]
    of the loop performs such a forced flush.  In particular a source that
    shows no product on three polls in a row ends the run with
    [total_products = 0] and exactly one, empty, batch file. *)
Theorem forced_flush_writes_empty_batch st e items :
  extract_all_products e = Ok (PyList items) →
  drop (length (all_products st)) items = [] →
  let st' := flush true st e in
  let empty_batch := {| bf_batch_number := batch_number st;
                        bf_products_in_batch := 0;
                        bf_total_products_so_far := len (all_products st);
                        bf_base_url := base_url;
                        bf_products := [] |} in
  batch_folder st' = batch_folder st ++ [empty_batch] ∧
  batch_number st' = batch_number st + 1 ∧
  all_products st' = all_products st ∧
  total_batches (create_final_output batch_size base_url st') =
    total_batches (create_final_output batch_size base_url st) + 1 ∧
  (∀ l st0 p why l' st1, body l st0 p = Break why l' st1 →
     ∃ st2, st1 = flush true st2 (page_evaluate p)) ∧
  extract_product_data_in_batches (Product:=Product) batch_size base_url
      [sees []; sees []; sees []] =
    Some (true,
          {| all_products := []; batch_number := 2;
             batch_folder := [ {| bf_batch_number := 1;
                                  bf_products_in_batch := 0;
                                  bf_total_products_so_far := 0;
                                  bf_base_url := base_url;
                                  bf_products := [] |} ] |},
          Some {| total_products := 0; total_batches := 1;
                  out_batch_size := batch_size; out_base_url := base_url;
                  out_products := [] |}).
Proof.
  intros He Hdelta. cbv zeta.
  rewrite (flush_list _ _ _ _ _ _ He). cbv zeta. rewrite Hdelta.
  rewrite andb_false_r, orb_true_r, app_nil_r. simpl.
  repeat split; try lia.
  - intros l st0 p why l' st1 Hstep.
    apply break_forces_flush in Hstep as (st2 & -> & _). eauto.
  - clear. generalize batch_size. by intros [|size|size].
Qed.

(** C2 (as the code has it).  On snapshots of 0, 100, 250, 250, 250 and
    250 records with [batch_size = 100], the run writes exactly three
    batches: batch 1 holds the first 100 records, batch 2 the whole delta
    of the third poll, that is the remaining 150 records, and batch 3, the
    forced flush at the stall, is empty; the final total is 250 and
    [total_batches] is 3. *)
Theorem scenario_A_batches (snap : list Product) :
  length snap = 250%nat →
  extract_product_data_in_batches 100 base_url (scenario_A snap) =
    Some (true,
          {| all_products := snap; batch_number := 4;
             batch_folder :=
               [ {| bf_batch_number := 1; bf_products_in_batch := 100;
                    bf_total_products_so_far := 100; bf_base_url := base_url;
                    bf_products := take 100 snap |};
                 {| bf_batch_number := 2; bf_products_in_batch := 150;
                    bf_total_products_so_far := 250; bf_base_url := base_url;
                    bf_products := drop 100 snap |};
                 {| bf_batch_number := 3; bf_products_in_batch := 0;
                    bf_total_products_so_far := 250; bf_base_url := base_url;
                    bf_products := [] |} ] |},
          Some {| total_products := 250; total_batches := 3;
                  out_batch_size := 100; out_base_url := base_url;
                  out_products := snap |}).
Proof.
  intros Hlen.
  assert (H100 : length (take 100 snap) = 100%nat) by (by rewrite length_take, Hlen).
  assert (H150 : length (drop 100 snap) = 150%nat) by (by rewrite length_drop, Hlen).
  set (b1 := {| bf_batch_number := 1; bf_products_in_batch := 100;
                bf_total_products_so_far := 100; bf_base_url := base_url;
                bf_products := take 100 snap |}).
  set (b2 := {| bf_batch_number := 2; bf_products_in_batch := 150;
                bf_total_products_so_far := 250; bf_base_url := base_url;
                bf_products := drop 100 snap |}).
  set (st1 := {| all_products := take 100 snap; batch_number := 2;
                 batch_folder := [b1] |}).
  set (st2 := {| all_products := snap; batch_number := 3;
                 batch_folder := [b1; b2] |}).
  assert (L100 : len (take 100 snap) = 100) by (unfold len; by rewrite H100).
  assert (L150 : len (drop 100 snap) = 150) by (unfold len; by rewrite H150).
  assert (L250 : len snap = 250) by (unfold len; by rewrite Hlen).
  assert (Hflush1 : extract_and_save_current_batch 100 base_url false init
                      (Ok (Records (take 100 snap))) = st1).
  { rewrite (flush_writes _ _ _ _ _ (take 100 snap)); [|done|right; lia].
    by rewrite L100. }
  assert (Hflush2 : extract_and_save_current_batch 100 base_url false st1
                      (Ok (Records snap)) = st2).
  { rewrite (flush_writes _ _ _ _ _ (drop 100 snap));
      [|symmetry; apply take_drop|right; lia].
    by rewrite L150, L250. }
  assert (Hflush3 : extract_and_save_current_batch 100 base_url true st2
                      (Ok (Records snap)) =
                    {| all_products := snap; batch_number := 4;
                       batch_folder := [b1; b2;
                         {| bf_batch_number := 3; bf_products_in_batch := 0;
                            bf_total_products_so_far := 250; bf_base_url := base_url;
                            bf_products := [] |} ] |}).
  { rewrite (flush_writes _ _ _ _ _ []); [|by rewrite app_nil_r|by left].
    by rewrite L250. }
  assert (Hstep1 : iteration 100 base_url locals0 init (sees (take 0 snap))
                   = Continue {| last_product_count := 0;
                                 consecutive_same_count := 1 |} init) by done.
  assert (Hstep2 : iteration 100 base_url
                     {| last_product_count := 0; consecutive_same_count := 1 |}
                     init (sees (take 100 snap))
                   = Continue {| last_product_count := 100;
                                 consecutive_same_count := 0 |} st1).
  { unfold iteration, count_same, sees.
    cbn [scroll_and_count page_evaluate last_product_count consecutive_same_count].
    by rewrite L100, Hflush1. }
  assert (Hstep3 : iteration 100 base_url
                     {| last_product_count := 100; consecutive_same_count := 0 |}
                     st1 (sees snap)
                   = Continue {| last_product_count := 250;
                                 consecutive_same_count := 0 |} st2).
  { unfold iteration, count_same, sees.
    cbn [scroll_and_count page_evaluate last_product_count consecutive_same_count
         all_products st1].
    by rewrite L250, L100, Hflush2. }
  assert (Hstep45 : ∀ k, k < 2 →
            iteration 100 base_url
              {| last_product_count := 250; consecutive_same_count := k |}
              st2 (sees snap)
            = Continue {| last_product_count := 250;
                          consecutive_same_count := k + 1 |} st2).
  { intros k Hk. unfold iteration, count_same, sees, max_consecutive_same.
    cbn [scroll_and_count page_evaluate last_product_count consecutive_same_count
         all_products st2].
    rewrite L250, Z.eqb_refl. replace (k + 1 >=? 3) with false by lia. done. }
  assert (Hstep6 : iteration 100 base_url
                     {| last_product_count := 250; consecutive_same_count := 2 |}
                     st2 (sees snap)
                   = Break NoNewProducts
                       {| last_product_count := 250; consecutive_same_count := 3 |}
                       (extract_and_save_current_batch 100 base_url true st2
                          (Ok (Records snap)))).
  { unfold iteration, count_same, sees.
    cbn [scroll_and_count page_evaluate last_product_count consecutive_same_count].
    by rewrite L250. }
  unfold extract_product_data_in_batches, scenario_A.
  cbn [fmap list_fmap loop].
  rewrite Hstep1, Hstep2, Hstep3, (Hstep45 0) by lia. change (0 + 1) with 1.
  rewrite (Hstep45 1) by lia. change (1 + 1) with 2.
  rewrite Hstep6, Hflush3.
  unfold create_final_output. cbn [all_products batch_number]. by rewrite L250.
Qed.

End LoopClaims.

(** ** Properties of the page script *)

Import PageScript.

Section ScriptFacts.

Lemma own_assign_ne key k v o :
  k ≠ key → own (assign key v o) !! k = own o !! k.
Proof.
  intros Hne. unfold assign.
  destruct (bool_decide (key = "__proto__") && has_prototype o).
  - by destruct v.
  - simpl. by rewrite lookup_insert_ne.
Qed.

Lemma own_assign_eq key v o :
  key ≠ "__proto__" → own (assign key v o) !! key = Some v.
Proof.
  intros Hne. unfold assign. rewrite bool_decide_eq_false_2 by done.
  simpl. by rewrite lookup_insert_eq.
Qed.

(** Details blocks stored under other keys leave the property [k] alone. *)
Lemma foldl_sections_other k sections o :
  (∀ s, s ∈ sections → section_key s ≠ Some k) →
  own (foldl read_section o sections) !! k = own o !! k.
Proof.
  revert o. induction sections as [|s sections IH]; intros o Hk; [done|].
  simpl. rewrite IH by (intros s' Hs'; apply Hk; by right).
  unfold read_section. destruct (section_key s) as [key|] eqn:Hkey; [|done].
  apply own_assign_ne. intros ->. by apply (Hk s); [left|].
Qed.


Lemma own_read_price_ne k o :
  k ≠ "price_value" → own (read_price o) !! k = own o !! k.
Proof.
  intros Hne. unfold read_price.
  destruct (own o !! "price") as [[|[|ch rest]|]|]; try done.
  by apply own_assign_ne.
Qed.

Lemma prefix_empty s : String.prefix EmptyString s = true.
Proof. by destruct s. Qed.



(** The properties of the finished record, read off the stages of the
    [map] callback. *)
Lemma own_extract_product now c k :
  k ≠ "extracted_at" → k ≠ "price_value" →
  own (extract_product now c) !! k =
    own (foldl read_section
           (read_info (info_el c)
              match name_el c with
              | Some text => assign "name" (JString (trim text)) empty_object
              | None => empty_object
              end)
           (detail_sections c)) !! k.
Proof.
  intros H1 H2. unfold extract_product.
  rewrite own_assign_ne by done. by rewrite own_read_price_ne.
Qed.

Lemma own_extract_product_price_value now c :
  own (extract_product now c) !! "price_value" =
    own (read_price
           (foldl read_section
              (read_info (info_el c)
                 match name_el c with
                 | Some text => assign "name" (JString (trim text)) empty_object
                 | None => empty_object
                 end)
              (detail_sections c))) !! "price_value".
Proof. unfold extract_product. by rewrite own_assign_ne. Qed.





(** Before the details blocks are read the record holds at most [name],
    [id] and [category]. *)
Lemma own_before_sections k info name :
  k ≠ "name" → k ≠ "id" → k ≠ "category" →
  own (read_info info
         match name with
         | Some text => assign "name" (JString (trim text)) empty_object
         | None => empty_object
         end) !! k = None.
Proof.
  intros H1 H2 H3.
  assert (Hname : own match name with
                      | Some text => assign "name" (JString (trim text)) empty_object
                      | None => empty_object
                      end !! k = None).
  { destruct name; [by rewrite own_assign_ne|done]. }
  unfold read_info. destruct info as [text|]; [|done].
  destruct (info_parts text !! 1%nat); rewrite ?own_assign_ne by done;
    (destruct (id_text (info_parts text)); [by rewrite own_assign_ne | done]).
Qed.




(** C8 (as the code has it).  For every parsed product record: if the
    record has no [price] field (and no section is labeled [price_value])
    then [price_value] is absent; if the price text is not empty but
    parses to no number then [price_value] is present with the value
    [null]; and if the price text is [$1,234.56] then [price_value] is
    1234.56. *)
Theorem price_value_of_price now c :
  (own (extract_product now c) !! "price" = None →
   (∀ s, s ∈ detail_sections c → section_key s ≠ Some "price_value") →
   own (extract_product now c) !! "price_value" = None) ∧
  (∀ text, own (extract_product now c) !! "price" = Some (JString text) →
     text ≠ EmptyString →
     own (extract_product now c) !! "price_value"
       = Some (number_or_null (parseFloat (strip_non_numeric text))) ∧
     (parseFloat (strip_non_numeric text) = None →
      own (extract_product now c) !! "price_value" = Some JNull)) ∧
  (own (extract_product now c) !! "price" = Some (JString "$1,234.56") →
   own (extract_product now c) !! "price_value"
     = Some (JNumber {| negative := false; coefficient := 123456; scale := 2 |})).
Proof.
  assert (Htext : ∀ text,
            own (extract_product now c) !! "price" = Some (JString text) →
            text ≠ EmptyString →
            own (extract_product now c) !! "price_value"
              = Some (number_or_null (parseFloat (strip_non_numeric text)))).
  { intros text Hprice Hne. rewrite own_extract_product in Hprice by done.
    rewrite own_extract_product_price_value. unfold read_price. rewrite Hprice.
    destruct text as [|ch rest]; [done|]. by rewrite own_assign_eq. }
  split; [|split].
  - intros Hprice Hsections. rewrite own_extract_product in Hprice by done.
    rewrite own_extract_product_price_value. unfold read_price. rewrite Hprice.
    rewrite foldl_sections_other by done. by apply own_before_sections.
  - intros text Hprice Hne. split; [by apply Htext|].
    intros Hnan. by rewrite (Htext text Hprice Hne), Hnan.
  - intros Hprice. by rewrite (Htext _ Hprice).
Qed.

(** C8 does not hold as stated: the price text [N/A] parses to no
    number, yet the record has [price_value], holding [null]. *)
Lemma unparsable_price_is_null_not_absent :
  parseFloat (strip_non_numeric "N/A") = None ∧
  own (extract_product "2025-01-01T00:00:00.000Z" (card_with_price "N/A"))
    !! "price_value" = Some JNull ∧
  own (extract_product "2025-01-01T00:00:00.000Z" (card_with_price "N/A"))
    !! "price_value" ≠ None.
Proof. by vm_compute. Qed.

End ScriptFacts.

(** ** The properties at concrete runs *)

(** C2 does not hold as stated: with 250 catalogued records the run of
    scenario A does not write batches of 100, 100 and 50 records. *)
Lemma scenario_A_not_100_100_50 :
  ¬ ∃ st out,
      extract_product_data_in_batches 100 hiring_url (scenario_A catalogue)
        = Some (true, st, Some out) ∧
      bf_products <$> batch_folder st = [seq 0 100; seq 100 100; seq 200 50].
Proof.
  intros (st & out & Hrun & Hbatches).
  vm_compute in Hrun. injection Hrun as <- _.
  vm_compute in Hbatches. discriminate Hbatches.
Qed.

(** Scenario A on the catalogue of 250 record ids: three batches. *)
Lemma scenario_A_batches_witness :
  length catalogue = 250%nat ∧
  total_batches
    (default (create_final_output 100 hiring_url init)
       (extract_product_data_in_batches 100 hiring_url (scenario_A catalogue)
          ≫= snd)) = 3.
Proof.
  split; [reflexivity|].
  by rewrite (scenario_A_batches hiring_url catalogue eq_refl).
Defined.

(** Four polls that all show the records 7 and 8, with [batch_size = 5]:
    the stall exit leaves exactly those two records accumulated. *)
Lemma accumulated_is_last_snapshot_witness :
  ∃ earlier final later,
    [[7; 8]; [7; 8]; [7; 8]; [7; 8]]%nat = earlier ++ final :: later ∧
    [] = sees <$> later ∧
    all_products two_records_done = final ∧
    out_products (create_final_output 5 hiring_url two_records_done) = final ∧
    total_products (create_final_output 5 hiring_url two_records_done) = len final.
Proof.
  apply (accumulated_is_last_snapshot 5 hiring_url
           [[7; 8]; [7; 8]; [7; 8]; [7; 8]]%nat NoNewProducts
           {| last_product_count := 2; consecutive_same_count := 3 |}
           two_records_done []).
  - simpl. repeat split; [apply prefix_nil | reflexivity..].
  - reflexivity.
Defined.


(** A page that never shows a product: the run ends. *)
Lemma loop_terminates_witness :
  ∃ n why l st,
    Z.of_nat n ≤ 3 * MAX_EXPECTED_PRODUCTS + 3 ∧
    loop 250 hiring_url locals0 init ((λ _, sees (Product:=nat) []) <$> seq 0 n)
      = Completed why l st [] ∧
    extract_product_data_in_batches 250 hiring_url
        ((λ _, sees (Product:=nat) []) <$> seq 0 n)
      = Some (true, st, Some (create_final_output 250 hiring_url st)) ∧
    ((why = NoNewProducts ∧ unchanged_run 3 ((λ _, 0) <$> seq 0 n)) ∨
     (why = LimitReached ∧ ∃ j, n = S j ∧ MAX_EXPECTED_PRODUCTS < (λ _ : nat, 0) j)).
Proof.
  apply (loop_terminates 250 hiring_url (λ _, sees (Product:=nat) []) (λ _, 0)).
  - intros i. reflexivity.
  - intros i. lia.
  - intros i. lia.
Defined.

(** A first poll that already shows 50001 records. *)
Lemma ceiling_stops_the_loop_witness :
  let p := sees (replicate (Z.to_nat 50001) 0%nat) in
  ∃ l' st1,
    (st1 = init ∨ st1 = extract_and_save_current_batch 250 hiring_url false init
                          (page_evaluate p)) ∧
    loop 250 hiring_url locals0 init ([] ++ p :: [p; p]) =
      Completed LimitReached l'
        (extract_and_save_current_batch 250 hiring_url true st1 (page_evaluate p))
        [p; p] ∧
    (∀ snap, page_evaluate p = Ok (Records snap) →
       len snap = 50001 →
       (length (all_products (init (Product:=nat))) ≤ length snap)%nat →
       total_products (create_final_output 250 hiring_url
         (extract_and_save_current_batch 250 hiring_url true st1 (page_evaluate p)))
       = 50001).
Proof.
  intros p.
  assert (Hcount : scroll_and_count p = Ok 50001).
  { unfold p, sees, len. cbn [scroll_and_count].
    rewrite length_replicate, Z2Nat.id by lia. reflexivity. }
  apply (ceiling_stops_the_loop 250 hiring_url [] locals0 init p 50001 [p; p]).
  - reflexivity.
  - exact Hcount.
  - reflexivity.
Defined.

(** A first poll counting 10 elements while the page script throws a
    [TypeError]. *)
Lemma page_error_is_empty_snapshot_witness :
  let p := counts (Product:=nat) 10 (Ok (ErrorMarker "TypeError: x is null")) in
  extract_all_products (page_evaluate p) = Ok (PyList []) ∧
  iteration 5 hiring_url locals0 init p
    = iteration 5 hiring_url locals0 init (counts 10 (Ok (Records []))) ∧
  all_products (state_of (iteration 5 hiring_url locals0 init p))
    = all_products init ∧
  (∀ st', iteration 5 hiring_url locals0 init p ≠ Raised st') ∧
  (¬ (10 = last_product_count locals0 ∧ 2 ≤ consecutive_same_count locals0) →
   10 ≤ MAX_EXPECTED_PRODUCTS →
   loop 5 hiring_url locals0 init (p :: []) =
     loop 5 hiring_url {| last_product_count := 10;
                          consecutive_same_count := count_same locals0 10 |}
       init []).
Proof.
  apply (page_error_is_empty_snapshot 5 hiring_url "TypeError: x is null"
           locals0 init 10 []).
  reflexivity.
Defined.

(** A forced flush on a fresh object and an empty page. *)
Lemma forced_flush_writes_empty_batch_witness :
  batch_number (extract_and_save_current_batch (Product:=nat) 250 hiring_url true
                  init (Ok (Records []))) = batch_number (init (Product:=nat)) + 1.
Proof.
  apply (forced_flush_writes_empty_batch 250 hiring_url init (Ok (Records [])) []);
    reflexivity.
Defined.

(** Two flushes on the same three records. *)
Lemma flush_twice_adds_nothing_witness :
  let e := Ok (Records [1; 2; 3]%nat) in
  let st1 := extract_and_save_current_batch 2 hiring_url false init e in
  drop (length (all_products st1)) [1; 2; 3]%nat = [] ∧
  all_products (extract_and_save_current_batch 2 hiring_url true st1 e)
    = all_products st1 ∧
  extract_and_save_current_batch 2 hiring_url false st1 e = st1.
Proof.
  intros e st1.
  destruct (flush_twice_adds_nothing 2 hiring_url false true init e)
    as (Hdelta & Hall & Hsame).
  split; [apply Hdelta; reflexivity | split; assumption].
Defined.


(** A card priced [$1,234.56]. *)
Lemma price_value_of_price_witness :
  own (extract_product "2025-01-01T00:00:00.000Z" (card_with_price "$1,234.56"))
    !! "price_value"
  = Some (JNumber {| negative := false; coefficient := 123456; scale := 2 |}).
Proof.
  apply (price_value_of_price "2025-01-01T00:00:00.000Z"
           (card_with_price "$1,234.56")).
  by vm_compute.
Defined.

(** ** Invariants of the batch folder and of the accumulated collection *)

Section RunInvariants.

Context {Product : Type}.
Variable batch_size : Z.
Variable base_url : string.

Abbreviation flush := (extract_and_save_current_batch (Product:=Product) batch_size base_url).
Abbreviation body := (iteration (Product:=Product) batch_size base_url).
Abbreviation run := (loop (Product:=Product) batch_size base_url).

(** Whatever a flush preserves, an iteration preserves: the object an
    iteration ends with is reached by at most two flushes. *)
Lemma body_preserves (P : State Product → Prop) l st p :
  (∀ force st0, P st0 → P (flush force st0 (page_evaluate p))) →
  P st → P (state_of (body l st p)).
Proof.
  intros Hflush Hst. unfold iteration.
  destruct (scroll_and_count p) as [c|]; [|done].
  destruct (_ && _); simpl; [by apply Hflush|].
  destruct (_ >=? batch_size), (_ >? MAX_EXPECTED_PRODUCTS); simpl; auto.
Qed.

Lemma state_of_step l st p rest :
  outcome_state (run l st (p :: rest)) =
    match body l st p with
    | Continue l' st' => outcome_state (run l' st' rest)
    | Break _ _ st' | Raised st' => st'
    end.
Proof. simpl. by destruct (body l st p). Qed.

(** Whatever every flush preserves holds of the object throughout a run,
    however the run ends. *)
Lemma run_preserves (P : State Product → Prop) polls l st :
  (∀ force st0 e, P st0 → P (flush force st0 e)) →
  P st → P (outcome_state (run l st polls)).
Proof.
  intros Hflush. revert l st.
  induction polls as [|p polls IH]; intros l st Hst; [done|].
  rewrite state_of_step.
  pose proof (body_preserves P l st p (λ force st0, Hflush force st0 _) Hst) as Hstep.
  destruct (body l st p); simpl in Hstep; auto.
Qed.

(** What one flush does to the object, in the three ways it can end. *)
Lemma flush_cases force st e :
  flush force st e = st ∨
  (∃ new_products,
     flush force st e =
       {| all_products := all_products st ++ new_products;
          batch_number := batch_number st;
          batch_folder := batch_folder st |} ∧
     force = false ∧ len new_products < batch_size) ∨
  (∃ new_products,
     flush force st e =
       {| all_products := all_products st ++ new_products;
          batch_number := batch_number st + 1;
          batch_folder := batch_folder st ++
            [ {| bf_batch_number := batch_number st;
                 bf_products_in_batch := len new_products;
                 bf_total_products_so_far := len (all_products st ++ new_products);
                 bf_base_url := base_url;
                 bf_products := new_products |} ] |} ∧
     (force = true ∨ batch_size ≤ len new_products)).
Proof.
  destruct (extract_all_products e) as [[items|err]|] eqn:He.
  - rewrite (flush_list _ _ _ _ _ _ He). cbv zeta.
    destruct (is_empty _ && negb force); [by left|].
    destruct (len _ >=? batch_size) eqn:Hsize; simpl.
    + right; right. eexists. split; [done|]. right. lia.
    + destruct force; simpl.
      * right; right. eexists. split; [done|]. by left.
      * right; left. eexists. split; [done|]. split; [done|]. lia.
  - left. apply flush_raise. congruence.
  - left. apply flush_raise. congruence.
Qed.

(** An iteration that continues made at most the threshold flush. *)
Lemma continue_state l st p l' st' :
  body l st p = Continue l' st' →
  st' = st ∨ st' = flush false st (page_evaluate p).
Proof.
  unfold iteration. destruct (scroll_and_count p) as [c|]; [|done].
  destruct (_ && _); [done|].
  destruct (_ >=? batch_size), (_ >? MAX_EXPECTED_PRODUCTS); intros [= _ <-]; auto.
Qed.

Lemma raised_state l st p st' : body l st p = Raised st' → st' = st.
Proof.
  unfold iteration. destruct (scroll_and_count p) as [c|]; [|by intros [= <-]].
  destruct (_ && _); [done|]. by destruct (_ >? MAX_EXPECTED_PRODUCTS).
Qed.

(** X1. Throughout a run, however it ends, earlier content is never
    removed or rewritten: the accumulated collection only gains records at
    its end, the batch folder only gains files after those already written,
    and the batch number never goes down. *)
Theorem run_only_appends polls l st :
  let st' := outcome_state (run l st polls) in
  all_products st `prefix_of` all_products st' ∧
  batch_folder st `prefix_of` batch_folder st' ∧
  batch_number st ≤ batch_number st'.
Proof.
  apply (run_preserves (λ st', all_products st `prefix_of` all_products st' ∧
                               batch_folder st `prefix_of` batch_folder st' ∧
                               batch_number st ≤ batch_number st')); [|done].
  intros force st0 e (Hall & Hfolder & Hnumber).
  destruct (flush_cases force st0 e) as [->|[(new & -> & _)|(new & -> & _)]]; simpl.
  - done.
  - split; [by apply prefix_app_r|done].
  - split; [by apply prefix_app_r|]. split; [by apply prefix_app_r|lia].
Qed.

Lemma flush_numbered force st e : numbered st → numbered (flush force st e).
Proof.
  intros [Hnext Hfiles].
  destruct (flush_cases force st e) as [->|[(new & -> & _)|(new & -> & _)]];
    [done|done|].
  split; simpl.
  - unfold len in *. rewrite length_app. simpl. lia.
  - intros i f Hi. apply lookup_app_Some in Hi as [Hi|[Hlen Hi]]; [by apply Hfiles|].
    apply list_lookup_singleton_Some in Hi as [Hi <-]. simpl.
    unfold len in Hnext. lia.
Qed.

Lemma run_numbered polls : numbered (outcome_state (run locals0 init polls)).
Proof.
  apply (run_preserves numbered); [intros; by apply flush_numbered|].
  split; [done|]. by intros i f ?.
Qed.

(** A filter that every element passes changes nothing. *)
Lemma filter_all {A} (P : A → Prop) `{!∀ x, Decision (P x)} (l : list A) :
  Forall P l → filter P l = l.
Proof.
  induction 1 as [|x l Hx _ IH]; [done|]. by rewrite filter_cons_True, IH.
Qed.


Lemma numbered_in (st : State Product) f :
  numbered st → f ∈ batch_folder st → 1 ≤ bf_batch_number f < batch_number st.
Proof.
  intros [Hnext Hnum] (i & Hi)%list_elem_of_lookup_1.
  pose proof (lookup_lt_Some _ _ _ Hi) as Hlt.
  rewrite (Hnum _ _ Hi), Hnext. unfold len. lia.
Qed.

(** When every write went through, the folder holds every batch handed to
    [save_batch_to_file]. *)
Lemma on_disk_all written (st : State Product) :
  numbered st → all_written written st → on_disk written st = batch_folder st.
Proof.
  intros Hnum Hall. unfold on_disk. apply filter_all, Forall_forall.
  intros f Hf. apply Is_true_true, Hall. by apply numbered_in.
Qed.


(** X4. From a fresh object, what the batch files hold, read in the order
    written, is a subsequence of the accumulated collection (nothing is
    saved that was not accumulated, and order is kept); and the metadata
    of every file is consistent: [products_in_batch] is the number of its
    products, and [products_in_batch <= total_products_so_far <=] the
    final total. *)
Theorem batch_files_hold_accumulated_records polls :
  let st := outcome_state (run locals0 init polls) in
  concat (bf_products <$> batch_folder st) `sublist_of` all_products st ∧
  Forall (file_consistent base_url (len (all_products st))) (batch_folder st).
Proof.
  apply (run_preserves
    (λ st, concat (bf_products <$> batch_folder st) `sublist_of` all_products st ∧
           Forall (file_consistent base_url (len (all_products st))) (batch_folder st)));
    [|by split; [|constructor]].
  intros force st0 e [Hsub Hfiles].
  assert (Hmono : ∀ new : list Product,
            Forall (file_consistent base_url (len (all_products st0 ++ new)))
                   (batch_folder st0)).
  { intros new. eapply Forall_impl; [exact Hfiles|].
    intros f (? & ? & ?). repeat split; try done; try lia.
    unfold len in *. rewrite length_app. lia. }
  destruct (flush_cases force st0 e) as [->|[(new & -> & _)|(new & -> & _)]]; simpl.
  - done.
  - split; [by apply sublist_inserts_r|apply Hmono].
  - split.
    + rewrite fmap_app, concat_app. simpl. rewrite app_nil_r.
      by apply sublist_app.
    + apply Forall_app. split; [apply Hmono|].
      apply Forall_singleton. repeat split; simpl; try done.
      unfold len. rewrite length_app. lia.
Qed.

Lemma soft_flush_full st e :
  Forall (full_batch batch_size) (batch_folder st) →
  Forall (full_batch batch_size) (batch_folder (flush false st e)).
Proof.
  intros Hfull.
  destruct (flush_cases false st e) as [->|[(new & -> & _)|(new & -> & Hsize)]];
    [done|done|]. simpl.
  apply Forall_app. split; [done|]. apply Forall_singleton.
  unfold full_batch. simpl. by destruct Hsize.
Qed.

Lemma forced_flush_one_file st e :
  ∃ final, batch_folder (flush true st e) = batch_folder st ++ final ∧
           (length final ≤ 1)%nat.
Proof.
  destruct (flush_cases true st e) as [->|[(new & _ & ? & _)|(new & -> & _)]];
    [|done|].
  - exists []. split; [by rewrite app_nil_r | simpl; lia].
  - eexists [_]. split; [done | simpl; lia].
Qed.

(** X6. From a fresh object, every batch file written while the loop is
    polling holds at least [batch_size] records; when the loop has
    completed, only the file of the final forced flush, the last one, can
    hold fewer. *)
Theorem only_last_batch_below_threshold polls :
  match run locals0 init polls with
  | Polling _ st | Failed st => Forall (full_batch batch_size) (batch_folder st)
  | Completed _ _ st _ =>
    ∃ earlier final,
      batch_folder st = earlier ++ final ∧
      Forall (full_batch batch_size) earlier ∧ (length final ≤ 1)%nat
  end.
Proof.
  assert (Hgen : ∀ polls l st,
    Forall (full_batch batch_size) (batch_folder st) →
    match run l st polls with
    | Polling _ st' | Failed st' => Forall (full_batch batch_size) (batch_folder st')
    | Completed _ _ st' _ =>
      ∃ earlier final,
        batch_folder st' = earlier ++ final ∧
        Forall (full_batch batch_size) earlier ∧ (length final ≤ 1)%nat
    end).
  { clear. induction polls as [|p polls IH]; intros l st Hfull; [done|].
    simpl. destruct (body l st p) as [l' st'|why l' st'|st'] eqn:Hstep.
    - apply IH. destruct (continue_state _ _ _ _ _ Hstep) as [->| ->];
        [done|by apply soft_flush_full].
    - apply break_forces_flush in Hstep as (st1 & -> & Hst1).
      destruct (forced_flush_one_file st1 (page_evaluate p)) as (final & -> & Hlen).
      exists (batch_folder st1), final. split; [done|]. split; [|done].
      destruct Hst1 as [->| ->]; [done|by apply soft_flush_full].
    - by rewrite (raised_state _ _ _ _ Hstep). }
  apply Hgen. constructor.
Qed.

(** X7. If the scroll or the element count of a poll raises while the
    loop is polling, the method returns [False] and writes no consolidated
    output; the object, with every batch file written so far, is exactly
    as the earlier polls left it, and no later poll is taken. *)
Theorem scroll_failure_keeps_batches polls l st p rest :
  run locals0 init polls = Polling l st →
  scroll_and_count p = Raise →
  extract_product_data_in_batches batch_size base_url (polls ++ p :: rest)
    = Some (false, st, None).
Proof.
  intros Hrun Hp. unfold extract_product_data_in_batches.
  rewrite loop_app, Hrun. simpl. unfold iteration. by rewrite Hp.
Qed.

Lemma failed_extraction_flush force st (p : Poll Product) :
  extraction_fails p → flush force st (page_evaluate p) = st.
Proof.
  intros [He|He]; rewrite He; apply flush_raise; intros items; simpl; congruence.
Qed.

(** X8. Extraction failures on the Python side are silent: if on every
    poll the page evaluation raises or returns a marker with an empty
    message, the object is never changed, forced flushes included; so a
    run that completes reports success with nothing accumulated and no
    batch file, whatever the element counts were. *)
Theorem extraction_failures_are_silent polls l st :
  Forall extraction_fails polls →
  outcome_state (run l st polls) = st ∧
  (∀ ok st' out,
     extract_product_data_in_batches batch_size base_url polls = Some (ok, st', out) →
     st' = init ∧
     (ok = true →
      out = Some {| total_products := 0; total_batches := 0;
                    out_batch_size := batch_size; out_base_url := base_url;
                    out_products := [] |})).
Proof.
  intros Hfail.
  assert (Hgen : ∀ l st, outcome_state (run l st polls) = st).
  { clear l st. induction Hfail as [|p polls Hp _ IH]; intros l st; [done|].
    rewrite state_of_step.
    pose proof (body_preserves (λ s, s = st) l st p) as Hstep.
    destruct (body l st p) as [l' st'|why l' st'|st'] eqn:Hbody; simpl in Hstep.
    - rewrite IH. apply Hstep; [|done]. intros force st0 ->.
      by apply failed_extraction_flush.
    - apply Hstep; [|done]. intros force st0 ->. by apply failed_extraction_flush.
    - apply Hstep; [|done]. intros force st0 ->. by apply failed_extraction_flush. }
  split; [apply Hgen|].
  intros ok st' out. unfold extract_product_data_in_batches.
  specialize (Hgen locals0 init).
  destruct (run locals0 init polls); simpl in Hgen; subst; intros [= <- <- <-].
  - done.
  - done.
Qed.

(** X9. A flush takes from the snapshot exactly the records at positions
    beyond the accumulated length: afterwards the collection is as long as
    the longer of the two, and a snapshot that is not longer than what is
    accumulated (a page that shrank or stood still) changes nothing in
    it. *)
Theorem flush_takes_records_beyond force st e items :
  extract_all_products e = Ok (PyList items) →
  all_products (flush force st e)
    = all_products st ++ drop (length (all_products st)) items ∧
  length (all_products (flush force st e))
    = (length (all_products st) `max` length items)%nat ∧
  ((length items ≤ length (all_products st))%nat →
   all_products (flush force st e) = all_products st).
Proof.
  intros He. rewrite (flush_all_products _ _ _ _ _ _ He).
  split; [done|]. split.
  - rewrite length_app, length_drop. lia.
  - intros Hle. by rewrite drop_ge, app_nil_r.
Qed.

(** X17. Records that were accumulated without being written to a batch
    file are never written to one later: through any run the number of
    accumulated records that no batch file holds never goes down.  It
    goes up whenever the threshold flush finds a delta that is not empty
    but shorter than [batch_size] (the page script returned fewer records
    than were counted): the delta is accumulated and no file is written. *)
Theorem unsaved_records_stay_unsaved polls l st :
  unsaved_count st ≤ unsaved_count (outcome_state (run l st polls)) ∧
  (∀ e items,
     extract_all_products e = Ok (PyList items) →
     let new_products := drop (length (all_products st)) items in
     0 < len new_products < batch_size →
     batch_folder (flush false st e) = batch_folder st ∧
     all_products (flush false st e) = all_products st ++ new_products ∧
     unsaved_count (flush false st e) = unsaved_count st + len new_products).
Proof.
  split.
  - apply (run_preserves (λ st', unsaved_count st ≤ unsaved_count st')); [|done].
    intros force st0 e Hle. unfold unsaved_count in *.
    destruct (flush_cases force st0 e) as [->|[(new & -> & _)|(new & -> & _)]]; simpl.
    + done.
    + unfold len in *. rewrite length_app. lia.
    + rewrite fmap_app, concat_app. simpl. unfold len in *.
      rewrite !length_app. simpl. lia.
  - intros e items He new_products [Hpos Hsmall].
    rewrite (flush_list _ _ _ _ _ _ He). cbv zeta. fold new_products.
    assert (is_empty new_products = false) as -> by (by destruct new_products).
    assert ((len new_products >=? batch_size) = false) as -> by lia.
    simpl. split; [done|]. split; [done|].
    unfold unsaved_count, len. simpl. rewrite length_app. lia.
Qed.

End RunInvariants.

(** ** Runs over faithful polls

    The polls of this section are those of [sees]: the element count is
    the length of the snapshot and the page script returns the snapshot,
    each snapshot extending the one before it. *)

Section FaithfulRuns.

Context {Product : Type}.
Variable batch_size : Z.
Variable base_url : string.

Abbreviation flush := (extract_and_save_current_batch (Product:=Product) batch_size base_url).
Abbreviation body := (iteration (Product:=Product) batch_size base_url).
Abbreviation run := (loop (Product:=Product) batch_size base_url).

(** An iteration that continues, with the branch of the threshold test it
    took. *)
Lemma continue_detail l st p c l' st' :
  scroll_and_count p = Ok c →
  body l st p = Continue l' st' →
  last_product_count l' = c ∧
  ((st' = st ∧ c - len (all_products st) < batch_size) ∨
   (st' = flush false st (page_evaluate p) ∧ batch_size ≤ c - len (all_products st))).
Proof.
  intros Hp. unfold iteration. rewrite Hp.
  destruct (_ && _); [done|].
  destruct (_ >=? batch_size) eqn:Hsize, (_ >? MAX_EXPECTED_PRODUCTS);
    intros [= <- <-]; simpl; (split; [done|]); [right|left]; split; try done; lia.
Qed.

(** An iteration that breaks, with the exit and the branch of the
    threshold test it took. *)
Lemma break_detail l st p c why l' st' :
  scroll_and_count p = Ok c →
  body l st p = Break why l' st' →
  (why = NoNewProducts ∧ c = last_product_count l ∧
   st' = flush true st (page_evaluate p)) ∨
  (why = LimitReached ∧ c - len (all_products st) < batch_size ∧
   st' = flush true st (page_evaluate p)) ∨
  (why = LimitReached ∧ batch_size ≤ c - len (all_products st) ∧
   st' = flush true (flush false st (page_evaluate p)) (page_evaluate p)).
Proof.
  intros Hp. unfold iteration. rewrite Hp.
  destruct (c =? last_product_count l) eqn:Hc; simpl.
  - destruct (_ >=? max_consecutive_same); simpl.
    + intros [= <- _ <-]. left. split; [done|]. split; [lia|done].
    + destruct (_ >=? batch_size) eqn:Hsize, (_ >? MAX_EXPECTED_PRODUCTS);
        intros [= <- _ <-]; right; [right|left]; (split; [done|]); split; try done; lia.
  - destruct (_ >=? batch_size) eqn:Hsize, (_ >? MAX_EXPECTED_PRODUCTS);
      intros [= <- _ <-]; right; [right|left]; (split; [done|]); split; try done; lia.
Qed.

(** On a snapshot that extends the accumulated collection, a flush that is
    forced or meets the threshold keeps the batch files a partition of
    what is accumulated. *)
Lemma flush_partitioned force st snap :
  all_products st `prefix_of` snap →
  partitioned st →
  force = true ∨ batch_size ≤ len snap - len (all_products st) →
  partitioned (flush force st (Ok (Records snap))).
Proof.
  intros [k ->] Hpart Hsave. unfold partitioned in *.
  destruct k as [|x k].
  - destruct force.
    + rewrite (flush_writes _ _ _ _ _ []); [|done|by left]. simpl.
      rewrite fmap_app, concat_app. simpl. by rewrite Hpart, !app_nil_r.
    + rewrite (flush_list _ _ _ _ _ (all_products st ++ [])); [|done].
      cbv zeta. by rewrite drop_app_length.
  - rewrite (flush_writes _ _ _ _ _ (x :: k)); [|done|]. 
    + simpl. rewrite fmap_app, concat_app. simpl. by rewrite Hpart, app_nil_r.
    + destruct Hsave as [->|Hsize]; [by left|right].
      unfold len in *. rewrite length_app in Hsize. simpl in *. lia.
Qed.

(** The batches of some of the files are a subsequence of the batches of
    all of them. *)
Lemma sublist_concat {A} (ls ks : list (list A)) :
  ls `sublist_of` ks → concat ls `sublist_of` concat ks.
Proof.
  induction 1 as [|x ls ks _ IH|x ls ks _ IH]; simpl; [done| |].
  - by apply sublist_app.
  - by apply sublist_inserts_l.
Qed.

(** X5. Over faithful polls from a fresh object the batches handed to
    [save_batch_to_file] partition the accumulated collection at every
    moment of the run: read in order, their products are exactly
    [all_products], every record in one batch and in no other.  So, when
    every write went through, the batch files of the folder hold exactly
    [all_products]; and whichever writes failed, what the files hold is a
    subsequence of [all_products]. *)
Theorem batches_partition_accumulated (snaps : list (list Product))
    (written : Z → bool) :
  append_only [] snaps →
  let st := outcome_state (run locals0 init (sees <$> snaps)) in
  partitioned st ∧
  (all_written written st →
   concat (bf_products <$> on_disk written st) = all_products st) ∧
  concat (bf_products <$> on_disk written st) `sublist_of` all_products st.
Proof.
  intros Hsnaps st.
  assert (Hpart : partitioned st); [|split; [done|split]].
  2:{ intros Hall. rewrite on_disk_all; [done| |done].
      apply (run_numbered batch_size base_url). }
  2:{ rewrite <- Hpart. apply sublist_concat, fmap_sublist, sublist_filter. }
  subst st. revert Hsnaps.
  assert (Hgen : ∀ snaps prev l st,
            all_products st `prefix_of` prev →
            append_only prev snaps →
            partitioned st →
            partitioned (outcome_state (run l st (sees <$> snaps)))).
  { clear. induction snaps as [|snap snaps IH]; intros prev l st Hprev Hsnaps Hpart;
      [done|].
    destruct Hsnaps as [Hsnap Hlater].
    assert (Hst : all_products st `prefix_of` snap) by by etrans.
    rewrite fmap_cons, state_of_step.
    destruct (body l st (sees snap)) as [l' st'|why l' st'|st'] eqn:Hstep.
    - apply (continue_detail _ _ _ (len snap)) in Hstep as [_ Hst']; [|done].
      simpl in Hst'. destruct Hst' as [[-> _]|[-> Hsize]].
      + by apply (IH snap).
      + apply (IH snap); [by rewrite flush_catches_up|done|].
        apply flush_partitioned; auto.
    - apply (break_detail _ _ _ (len snap)) in Hstep; [|done]. simpl in Hstep.
      destruct Hstep as [(_ & _ & ->)|[(_ & _ & ->)|(_ & Hsize & ->)]].
      + apply flush_partitioned; auto.
      + apply flush_partitioned; auto.
      + apply flush_partitioned; [by rewrite flush_catches_up| |by left].
        apply flush_partitioned; auto.
    - by rewrite (raised_state _ _ _ _ _ _ Hstep). }
  intros Hsnaps. apply (Hgen snaps []); [done|done|done].
Qed.

(** The file written by a forced flush on a snapshot that extends the
    accumulated collection holds the records still missing. *)
Lemma forced_flush_file st snap :
  all_products st `prefix_of` snap →
  ∃ f, batch_folder (flush true st (Ok (Records snap))) = batch_folder st ++ [f] ∧
       bf_products_in_batch f = len snap - len (all_products st).
Proof.
  intros [k ->]. rewrite (flush_writes _ _ _ _ _ k); [|done|by left].
  eexists. split; [done|]. simpl. unfold len. rewrite length_app. lia.
Qed.

Lemma default_last_cons (prev snap : list Product) snaps :
  default prev (last (snap :: snaps)) = default snap (last snaps).
Proof. rewrite last_cons. by destruct (last snaps). Qed.

(** X10. Over faithful polls from a fresh object with a positive
    [batch_size] the loop never raises; while it is polling, fewer than
    [batch_size] records of the latest snapshot are still missing from the
    accumulated collection; and when it has completed, the last batch
    handed to [save_batch_to_file], the one of the final forced flush,
    holds fewer than [batch_size] records, and is the last file of the
    folder when its write went through. *)
Theorem final_batch_below_threshold (snaps : list (list Product)) :
  0 < batch_size →
  append_only [] snaps →
  match run locals0 init (sees <$> snaps) with
  | Polling _ st =>
    all_products st `prefix_of` default [] (last snaps) ∧
    len (default [] (last snaps)) - len (all_products st) < batch_size
  | Completed _ _ st _ =>
    ∃ earlier f, batch_folder st = earlier ++ [f] ∧
                 bf_products_in_batch f < batch_size ∧
                 ∀ written, written (bf_batch_number f) = true →
                            last (on_disk written st) = Some f
  | Failed _ => False
  end.
Proof.
  intros Hpos Hsnaps.
  assert (Hrun : match run locals0 init (sees <$> snaps) with
                 | Polling _ st =>
                   all_products st `prefix_of` default [] (last snaps) ∧
                   len (default [] (last snaps)) - len (all_products st) < batch_size
                 | Completed _ _ st _ =>
                   ∃ earlier f, batch_folder st = earlier ++ [f] ∧
                                bf_products_in_batch f < batch_size
                 | Failed _ => False
                 end).
  2:{ destruct (run locals0 init (sees <$> snaps)) as [why l st unread|st|l st];
        [|done..].
      destruct Hrun as (earlier & f & Hfolder & Hsize).
      exists earlier, f. split; [done|]. split; [done|].
      intros written Hwritten. unfold on_disk.
      rewrite Hfolder, filter_app, filter_cons_True, filter_nil by by rewrite Hwritten.
      apply last_snoc. }
  revert Hsnaps.
  assert (Hgen : ∀ snaps prev l st,
            lags_below batch_size l st prev →
            append_only prev snaps →
            match run l st (sees <$> snaps) with
            | Polling l' st' => lags_below batch_size l' st' (default prev (last snaps))
            | Completed _ _ st' _ =>
              ∃ earlier f, batch_folder st' = earlier ++ [f] ∧
                           bf_products_in_batch f < batch_size
            | Failed _ => False
            end).
  { clear snaps.
    induction snaps as [|snap snaps IH]; intros prev l st Hlag Hsnaps; [done|].
    destruct Hlag as (Hprev & Hlast & Hlag). destruct Hsnaps as [Hsnap Hlater].
    assert (Hst : all_products st `prefix_of` snap) by by etrans.
    rewrite default_last_cons, fmap_cons. cbn [loop].
    destruct (body l st (sees snap)) as [l' st'|why l' st'|st'] eqn:Hstep.
    - apply (continue_detail _ _ _ (len snap)) in Hstep as [Hl' Hst']; [|done].
      apply IH; [|done]. simpl in Hst'.
      destruct Hst' as [[-> Hsize]|[-> Hsize]]; split; try done.
      + by rewrite flush_catches_up.
      + split; [done|]. rewrite flush_catches_up by done. lia.
    - apply (break_detail _ _ _ (len snap)) in Hstep; [|done]. simpl in Hstep.
      destruct Hstep as [(_ & Hc & ->)|[(_ & Hsize & ->)|(_ & Hsize & ->)]].
      + destruct (forced_flush_file st snap Hst) as (f & -> & Hf).
        exists (batch_folder st), f. split; [done|]. lia.
      + destruct (forced_flush_file st snap Hst) as (f & -> & Hf).
        exists (batch_folder st), f. split; [done|]. lia.
      + destruct (forced_flush_file (flush false st (Ok (Records snap))) snap)
          as (f & -> & Hf); [by rewrite flush_catches_up|].
        rewrite flush_catches_up in Hf by done.
        eexists _, f. split; [done|]. lia.
    - unfold iteration in Hstep. simpl in Hstep.
      destruct (_ && _); [done|]. by destruct (_ >? MAX_EXPECTED_PRODUCTS). }
  intros Hsnaps.
  pose proof (Hgen snaps [] locals0 init) as Hrun.
  destruct (run locals0 init (sees <$> snaps)).
  - apply Hrun; [|done]. split; [done|]. split; [done|]. simpl. lia.
  - apply Hrun; [|done]. split; [done|]. split; [done|]. simpl. lia.
  - destruct Hrun as (Hpre & _ & Hlag); [|done|by split].
    split; [done|]. split; [done|]. simpl. lia.
Qed.

(** A completed run was polling up to the poll on which it broke. *)
Lemma completed_split polls l st why l' st' unread :
  run l st polls = Completed why l' st' unread →
  ∃ before p l1 st1,
    polls = before ++ p :: unread ∧
    run l st before = Polling l1 st1 ∧
    body l1 st1 p = Break why l' st'.
Proof.
  revert l st. induction polls as [|p polls IH]; intros l st; simpl; [done|].
  destruct (body l st p) as [l1 st1|why1 l1 st1|st1] eqn:Hstep; [| |done].
  - intros (before & q & l2 & st2 & -> & Hrun & Hq)%IH.
    exists (p :: before), q, l2, st2. simpl. by rewrite Hstep.
  - intros [= <- <- <- <-]. by exists [], p, l, st.
Qed.

(** X18. The ceiling is an exit test, not a cap: over faithful polls from
    a fresh object, a completed run took the ceiling exit exactly when
    its final [total_products] exceeds 50000, and that total is the whole
    snapshot of the breaking poll, however far beyond the ceiling; on the
    stall exit the total is at most 50000. *)
Theorem ceiling_exit_iff_total_exceeds (snaps : list (list Product)) why l st unread :
  append_only [] snaps →
  run locals0 init (sees <$> snaps) = Completed why l st unread →
  (why = LimitReached ↔
     MAX_EXPECTED_PRODUCTS < total_products (create_final_output batch_size base_url st)) ∧
  (why = NoNewProducts ↔
     total_products (create_final_output batch_size base_url st) ≤ MAX_EXPECTED_PRODUCTS).
Proof.
  intros Hsnaps Hrun.
  assert (Hwhy : (why = LimitReached ∧ MAX_EXPECTED_PRODUCTS < len (all_products st)) ∨
                 (why = NoNewProducts ∧ len (all_products st) ≤ MAX_EXPECTED_PRODUCTS)).
  { destruct (loop_collects batch_size base_url snaps [] locals0 init why l st unread)
      as (earlier & final & later & -> & -> & <-); [done..|].
    apply completed_split in Hrun as (before & p & l1 & st1 & Hpolls & Hbefore & Hstep).
    rewrite fmap_app, fmap_cons in Hpolls.
    apply app_inj_1 in Hpolls as [<- Hp].
    2:{ apply (f_equal length) in Hpolls. rewrite !length_app in Hpolls.
        simpl in Hpolls. rewrite !length_fmap in *. lia. }
    injection Hp as <-.
    destruct (break_reason batch_size base_url l1 st1 (sees (all_products st))
                (len (all_products st)) why l st eq_refl Hstep)
      as [[-> Hstall]|[-> Hmax]]; [right|by left].
    split; [done|].
    apply (stall_exit batch_size base_url l1 st1 (sees (all_products st))
             (len (all_products st)) eq_refl) in Hstall as [-> _].
    by destruct (polling_bounds _ _ _ _ _ Hbefore). }
  simpl. destruct Hwhy as [[-> ?]|[-> ?]]; split; split; try done; lia.
Qed.

End FaithfulRuns.

(** ** Batch file names *)

Section FileNames.

Lemma list_ascii_of_append s t :
  String.list_ascii_of_string (s +:+ t)
  = String.list_ascii_of_string s ++ String.list_ascii_of_string t.
Proof. induction s as [|ch s IH]; simpl; [done|]. by rewrite IH. Qed.

Lemma append_inv_tail s1 s2 t : s1 +:+ t = s2 +:+ t → s1 = s2.
Proof.
  intros Heq. apply (f_equal String.list_ascii_of_string) in Heq.
  rewrite !list_ascii_of_append in Heq. apply app_inv_tail in Heq.
  rewrite <- (String.string_of_list_ascii_of_string s1),
          <- (String.string_of_list_ascii_of_string s2). by rewrite Heq.
Qed.

(** The digits of a positive number start with a digit other than 0. *)
Lemma pretty_N_go_leading x s :
  (0 < x)%N → ∃ ch rest, pretty_N_go x s = String ch rest ∧ ch ≠ "0"%char.
Proof.
  revert s. induction (N.lt_wf_0 x) as [x _ IH]; intros s Hx.
  rewrite pretty_N_go_step by done.
  destruct (N.eq_0_gt_0_cases (x `div` 10)) as [Hq|Hq].
  - rewrite Hq, pretty_N_go_0. eexists _, _. split; [done|].
    assert (x < 10)%N by (by apply N.div_small_iff).
    assert (x `mod` 10 = x)%N as -> by (by apply N.mod_small).
    destruct x as [|p]; [done|]. unfold pretty_N_char. by repeat case_match.
  - apply IH; [|done]. by apply N.div_lt.
Qed.

Lemma pretty_pos_leading (p : positive) :
  ∃ ch rest, pretty (Zpos p) = String ch rest ∧ ch ≠ "0"%char.
Proof.
  unfold pretty, pretty_Z, pretty, pretty_positive, pretty, pretty_N.
  rewrite decide_False by done. by apply pretty_N_go_leading.
Qed.

(** Zero filling loses nothing of a text that does not start with 0. *)
Lemma zero_fill_inj k1 k2 ch1 rest1 ch2 rest2 :
  ch1 ≠ "0"%char → ch2 ≠ "0"%char →
  zero_fill k1 (String ch1 rest1) = zero_fill k2 (String ch2 rest2) →
  String ch1 rest1 = String ch2 rest2.
Proof.
  intros H1 H2. revert k2.
  induction k1 as [|k1 IH]; intros [|k2]; simpl; try done.
  - by intros [= -> _].
  - by intros [= <- _].
  - intros [= Heq]. by apply (IH k2).
Qed.

Lemma format_03d_inj m n :
  0 < m → 0 < n → format_03d m = format_03d n → m = n.
Proof.
  destruct m as [|p|p], n as [|q|q]; try done. intros _ _. unfold format_03d.
  destruct (pretty_pos_leading p) as (ch1 & rest1 & Hp & Hch1).
  destruct (pretty_pos_leading q) as (ch2 & rest2 & Hq & Hch2).
  rewrite Hp, Hq. intros Heq%zero_fill_inj; [|done..].
  apply (inj pretty). by rewrite Hp, Hq.
Qed.

(** X3. Distinct batch numbers give distinct file names, so that, the
    files of a run from a fresh object being numbered 1, 2, 3, ..., no
    batch file is ever written over another: the names of the files in
    the batch folder are pairwise different, however long the run. *)
Theorem batch_files_never_overwritten {Product} batch_size base_url
    (polls : list (Poll Product)) :
  (∀ m n, 0 < m → 0 < n → batch_file_name m = batch_file_name n → m = n) ∧
  NoDup (batch_file_name <$>
           (bf_batch_number <$>
              batch_folder (outcome_state (loop batch_size base_url locals0 init polls)))).
Proof.
  assert (Hinj : ∀ m n, 0 < m → 0 < n →
                   batch_file_name m = batch_file_name n → m = n).
  { intros m n Hm Hn Heq. unfold batch_file_name in Heq.
    apply (inj (String.append _)), append_inv_tail in Heq.
    by apply format_03d_inj. }
  split; [done|].
  destruct (run_numbered batch_size base_url polls) as [_ Hnum].
  apply NoDup_alt. intros i j name Hi Hj.
  apply list_lookup_fmap_Some in Hi as (ni & -> & Hi).
  apply list_lookup_fmap_Some in Hj as (nj & Heq & Hj).
  apply list_lookup_fmap_Some in Hi as (fi & -> & Hi).
  apply list_lookup_fmap_Some in Hj as (fj & -> & Hj).
  rewrite (Hnum i fi Hi), (Hnum j fj Hj) in Heq.
  apply Hinj in Heq; lia.
Qed.

End FileNames.

(** ** The menu walk *)

Section MenuWalk.

Import Navigation.

Lemma selectors_NoDup : NoDup selectors.
Proof. by apply (bool_decide_unpack _). Qed.

(** A list splits around an element in one way only, when the element
    is in neither front part. *)
Lemma split_unique {A} (x : A) before1 after1 before2 after2 :
  x ∉ before1 → x ∉ before2 →
  before1 ++ x :: after1 = before2 ++ x :: after2 → before1 = before2.
Proof.
  revert before2. induction before1 as [|y before1 IH]; intros [|z before2];
    simpl; intros H1 H2 Heq; simplify_eq.
  - done.
  - destruct H2. by left.
  - destruct H1. by left.
  - f_equal. apply IH; [|by intros ?; apply H2; right|done].
    intros ?. apply H1. by right.
Qed.

(** The selector picked is the first one of the list that clicks. *)
Lemma try_selectors_Some answer sels sel :
  try_selectors answer sels = Some sel ↔
  ∃ before after, sels = before ++ sel :: after ∧ answer sel = Clicks ∧
                  ∀ sel', sel' ∈ before → answer sel' ≠ Clicks.
Proof.
  induction sels as [|s sels IH]; simpl.
  - split; [done|]. by intros ([|??] & ? & ? & _).
  - destruct (answer s) eqn:Hs.
    + rewrite IH. split.
      * intros (before & after & -> & Hsel & Hbefore).
        exists (s :: before), after. split; [done|]. split; [done|].
        intros sel' [->|?]%elem_of_cons; [congruence|auto].
      * intros ([|s' before] & after & Heq & Hsel & Hbefore);
          simplify_eq/=; [congruence|].
        exists before, after. split; [done|]. split; [done|].
        intros sel' ?. apply Hbefore. by right.
    + rewrite IH. split.
      * intros (before & after & -> & Hsel & Hbefore).
        exists (s :: before), after. split; [done|]. split; [done|].
        intros sel' [->|?]%elem_of_cons; [congruence|auto].
      * intros ([|s' before] & after & Heq & Hsel & Hbefore);
          simplify_eq/=; [congruence|].
        exists before, after. split; [done|]. split; [done|].
        intros sel' ?. apply Hbefore. by right.
    + split.
      * intros [= <-]. exists [], sels. split; [done|]. split; [done|].
        by intros sel' ?%elem_of_nil.
      * intros ([|s' before] & after & Heq & Hsel & Hbefore); simplify_eq/=; [done|].
        destruct (Hbefore s'); [by left|done].
Qed.

Lemma try_selectors_None answer sels :
  try_selectors answer sels = None ↔ ∀ sel, sel ∈ sels → answer sel ≠ Clicks.
Proof.
  induction sels as [|s sels IH]; simpl.
  - split; [by intros _ sel ?%elem_of_nil|done].
  - destruct (answer s) eqn:Hs; rewrite ?IH; split;
      try (intros H sel [->|?]%elem_of_cons; [congruence|by apply H]);
      try (intros H sel ?; apply H; by right); try done.
    intros H. destruct (H s); [by left|done].
Qed.

(** The walk from step [i]: it succeeds exactly when every step has a
    selector that clicks, and its clicks are the steps reached, in order. *)
Lemma click_steps_spec page i steps :
  (fst (click_steps page i steps) = true ↔
     ∀ k, (k < length steps)%nat →
          ∃ sel, sel ∈ selectors ∧ page (i + k)%nat sel = Clicks) ∧
  (snd (click_steps page i steps)).*1 `prefix_of` steps ∧
  (fst (click_steps page i steps) = true →
     (snd (click_steps page i steps)).*1 = steps) ∧
  (∀ k step sel, snd (click_steps page i steps) !! k = Some (step, sel) →
     page (i + k)%nat sel = Clicks ∧
     ∀ sel', tried_before sel' sel → page (i + k)%nat sel' ≠ Clicks) ∧
  (fst (click_steps page i steps) = false →
     ∀ sel, sel ∈ selectors →
       page (i + length (snd (click_steps page i steps)))%nat sel ≠ Clicks).
Proof.
  revert i. induction steps as [|step steps IH]; intros i; cbn [click_steps length].
  - simpl. split; [split; [intros _ k ?; lia|done]|]. split; [done|]. split; [done|].
    split; [by intros k ?? ?|done].
  - destruct (try_selectors (page i) selectors) as [sel|] eqn:Htry.
    + apply try_selectors_Some in Htry as (before & after & Hsels & Hsel & Hbefore).
      destruct (IH (S i)) as (Hok & Hpre & Hall & Hclicks & Hfail).
      destruct (click_steps page (S i) steps) as [ok clicks].
      cbn [fst snd fmap list_fmap length] in *.
      split; [|split; [|split; [|split]]].
      * rewrite Hok. split.
        -- intros H [|k] ?.
           ++ exists sel. rewrite Nat.add_0_r. split; [|done].
              rewrite Hsels. apply elem_of_app. right. by left.
           ++ destruct (H k) as (s & ? & ?); [lia|]. exists s.
              by rewrite Nat.add_succ_r.
        -- intros H k ?. destruct (H (S k)) as (s & ? & ?); [lia|]. exists s.
           by rewrite Nat.add_succ_r in *.
      * by apply prefix_cons.
      * intros Hyes. by rewrite Hall.
      * intros [|k] step' sel' Hk; simpl in Hk.
        -- injection Hk as <- <-. rewrite Nat.add_0_r. split; [done|].
           intros sel' (before' & after' & Heq & Hin).
           rewrite Hsels in Heq.
           assert (before' = before) as ->; [|by apply Hbefore].
           pose proof selectors_NoDup as Hnd. rewrite Hsels in Hnd.
           symmetry. eapply split_unique; [| |exact Heq].
           ++ apply NoDup_app in Hnd as (_ & Hnd & _).
              intros Hin'. apply (Hnd sel Hin'). by left.
           ++ rewrite Heq in Hnd. apply NoDup_app in Hnd as (_ & Hnd & _).
              intros Hin'. apply (Hnd sel Hin'). by left.
        -- rewrite Nat.add_succ_r. by apply (Hclicks k step').
      * intros Hno sel' Hin. rewrite Nat.add_succ_r. by apply Hfail.
    + simpl. rewrite try_selectors_None in Htry.
      split; [split; [done|]|].
      * intros H. destruct (H 0%nat) as (s & Hs & Hclick); [lia|].
        rewrite Nat.add_0_r in Hclick. by destruct (Htry s).
      * split; [apply prefix_nil|]. split; [done|].
        split; [by intros k ?? ?|].
        intros _ sel Hin. rewrite Nat.add_0_r. by apply Htry.
Qed.

(** X11. [navigate_to_products] returns [True] exactly when reaching the
    challenge page raised nothing, each of the four menu steps has at
    least one selector that is visible and can be clicked, and the waits
    after the walk raised nothing. *)
Theorem navigation_succeeds_iff env :
  fst (navigate_to_products env) = true ↔
  arrive env = Ok () ∧
  (∀ k, (k < 4)%nat → ∃ sel, sel ∈ selectors ∧ page env k sel = Clicks) ∧
  settle env = Ok ().
Proof.
  unfold navigate_to_products.
  assert (Hok : fst (click_steps (page env) 0 navigation_steps) = true ↔
                ∀ k, (k < 4)%nat → ∃ sel, sel ∈ selectors ∧ page env k sel = Clicks)
    by apply (click_steps_spec (page env) 0 navigation_steps).
  destruct (arrive env) as [[]|]; [|by split; [|intros [? _]]].
  destruct (click_steps (page env) 0 navigation_steps) as [ok clicks].
  cbn [fst] in Hok. destruct ok.
  - destruct (settle env) as [[]|]; simpl.
    + split; [|done]. intros _. split; [done|]. split; [by apply Hok|done].
    + split; [done|]. by intros (_ & _ & ?).
  - simpl. split; [done|]. intros (_ & Hall & _). by apply Hok.
Qed.

(** X12. The clicks of [navigate_to_products] follow the menu: the steps
    clicked are an initial part of Dashboard, Inventory, Products, Full
    Catalog, in that order and each once, all four when the method returns
    [True]; for each step the selector used is the first of the four, in
    list order, that clicks; and the walk stops at the first step that no
    selector can click, nothing being clicked after it. *)
Theorem navigation_clicks_in_order env :
  let clicks := snd (navigate_to_products env) in
  clicks.*1 `prefix_of` navigation_steps ∧
  (fst (navigate_to_products env) = true → clicks.*1 = navigation_steps) ∧
  (∀ k step sel, clicks !! k = Some (step, sel) →
     page env k sel = Clicks ∧
     ∀ sel', tried_before sel' sel → page env k sel' ≠ Clicks) ∧
  ((length clicks < 4)%nat →
     arrive env = Raise ∨
     ∀ sel, sel ∈ selectors → page env (length clicks) sel ≠ Clicks).
Proof.
  unfold navigate_to_products.
  destruct (click_steps_spec (page env) 0 navigation_steps)
    as (_ & Hpre & Hall & Hclicks & Hfail).
  destruct (arrive env) as [[]|].
  2:{ simpl. split; [apply prefix_nil|]. split; [done|].
      split; [by intros k ?? ?|]. by left. }
  destruct (click_steps (page env) 0 navigation_steps) as [ok clicks].
  cbn [fst snd] in *.
  assert (Hshort : (length clicks < 4)%nat →
            ∀ sel, sel ∈ selectors → page env (length clicks) sel ≠ Clicks).
  { intros Hlen. destruct ok; [|by apply Hfail].
    apply (f_equal length) in Hall; [|done].
    rewrite length_fmap in Hall. simpl in Hall. lia. }
  destruct ok; [destruct (settle env) as [[]|]|]; cbn [fst snd];
    (split; [done|]); (split; [by auto|]); (split; [done|]); auto.
Qed.

End MenuWalk.

(** ** More on the page script *)

#[local] Set Warnings "-clear-no-such-hyp".

Section RecordFacts.

Lemma dom_assign key v o :
  dom (own (assign key v o)) ⊆ {[ key ]} ∪ dom (own o).
Proof.
  unfold assign. destruct (bool_decide _ && has_prototype o).
  - destruct v; set_solver.
  - simpl. rewrite dom_insert. set_solver.
Qed.

Lemma dom_read_section o section :
  dom (own (read_section o section)) ⊆ section_keys [section] ∪ dom (own o).
Proof.
  unfold read_section, section_keys. simpl.
  destruct (section_key section) as [key|]; simpl; [|set_solver].
  pose proof (dom_assign key (section_value section) o). set_solver.
Qed.

Lemma dom_foldl_sections sections o :
  dom (own (foldl read_section o sections)) ⊆ section_keys sections ∪ dom (own o).
Proof.
  revert o. induction sections as [|section sections IH]; intros o; simpl.
  - set_solver.
  - pose proof (IH (read_section o section)).
    pose proof (dom_read_section o section).
    unfold section_keys in *. simpl in *.
    destruct (section_key section); simpl in *; set_solver.
Qed.

Lemma dom_read_info info o :
  dom (own (read_info info o)) ⊆ {[ "id"; "category" ]} ∪ dom (own o).
Proof.
  unfold read_info. destruct info as [text|]; [|set_solver].
  destruct (info_parts text !! 1%nat) as [part1|];
    destruct (id_text (info_parts text)) as [idStr|];
    repeat match goal with
           | |- context [assign ?k ?v ?o'] =>
             pose proof (dom_assign k v o'); generalize dependent (assign k v o'); intros
           end; set_solver.
Qed.

Lemma dom_read_price o :
  dom (own (read_price o)) ⊆ {[ "price_value" ]} ∪ dom (own o).
Proof.
  unfold read_price.
  destruct (own o !! "price") as [[|[|ch rest]|]|]; set_solver.
Qed.

(** X13. Every record carries [extracted_at], holding the time the
    container was read, whatever the container looks like; and a record
    never has a field other than [name], [id], [category], [price_value],
    [extracted_at] and the keys its details blocks are stored under. *)
Theorem record_fields now c :
  own (extract_product now c) !! "extracted_at" = Some (JString now) ∧
  dom (own (extract_product now c))
    ⊆ named_fields ∪ section_keys (detail_sections c).
Proof.
  split; [by apply own_assign_eq|].
  unfold extract_product, named_fields.
  set (o1 := match name_el c with
             | Some text => assign "name" (JString (trim text)) empty_object
             | None => empty_object
             end).
  assert (H1 : dom (own o1) ⊆ {[ "name" ]}).
  { subst o1. destruct (name_el c).
    - pose proof (dom_assign "name" (JString (trim s)) empty_object).
      simpl in *. set_solver.
    - simpl. set_solver. }
  pose proof (dom_read_info (info_el c) o1) as H2.
  pose proof (dom_foldl_sections (detail_sections c) (read_info (info_el c) o1)) as H3.
  pose proof (dom_read_price
                (foldl read_section (read_info (info_el c) o1) (detail_sections c))) as H4.
  pose proof (dom_assign "extracted_at" (JString now)
                (read_price (foldl read_section (read_info (info_el c) o1)
                               (detail_sections c)))) as H5.
  set_solver.
Qed.

Lemma append_nil_r s : s +:+ EmptyString = s.
Proof.
  induction s as [|ch s IH]; [done|].
  change (String ch (s +:+ EmptyString) = String ch s). by f_equal.
Qed.

Lemma rev_app_rev_app s t u :
  String.rev_app (String.rev_app s t) u = String.rev_app t (s +:+ u).
Proof.
  revert t. induction s as [|ch s IH]; intros t; simpl; [done|]. by rewrite IH.
Qed.

Lemma rev_involutive s : String.rev (String.rev s) = s.
Proof. unfold String.rev. rewrite rev_app_rev_app. exact (append_nil_r s). Qed.

(** Text that nowhere holds the separator is not split. *)
Lemma split_go_whole sep piece s :
  includes sep s = false →
  split_go sep 0 piece s = [String.rev (String.rev_app s piece)].
Proof.
  revert piece. induction s as [|ch s IH]; intros piece; simpl; [done|].
  intros [Hhere Hrest]%orb_false_iff.
  cbn [String.prefix] in Hhere. destruct sep as [|a sep].
  - done.
  - simpl in *. destruct (ascii_dec a ch) as [->|Hne].
    + rewrite Hhere. by apply IH.
    + by apply IH.
Qed.

Lemma split_whole text :
  includes separator text = false → split separator text = [text].
Proof.
  intros Hno. unfold split. rewrite split_go_whole by done.
  by rewrite <- (rev_involutive text) at 2.
Qed.

(** X14. The [category] field is set only from text after the separator
    literal of the script: an info line that nowhere holds that literal is
    not split, its whole trimmed text is the one part, and [category] is
    absent from the record (no details block being labeled category). *)
Theorem category_needs_separator now c text :
  info_el c = Some text →
  includes separator text = false →
  info_parts text
    = (if decide (trim text = EmptyString) then [] else [trim text]) ∧
  ((∀ s, s ∈ detail_sections c → section_key s ≠ Some "category") →
   own (extract_product now c) !! "category" = None).
Proof.
  intros Hinfo Hno.
  assert (Hparts : info_parts text
            = if decide (trim text = EmptyString) then [] else [trim text]).
  { unfold info_parts. rewrite split_whole by done. simpl.
    rewrite filter_cons. by repeat case_decide. }
  split; [done|]. intros Hsections.
  rewrite own_extract_product by done.
  rewrite foldl_sections_other by done.
  rewrite Hinfo. unfold read_info.
  assert (info_parts text !! 1%nat = None) as ->.
  { rewrite Hparts. by case_decide. }
  destruct (id_text (info_parts text)); rewrite ?own_assign_ne by done;
    (destruct (name_el c); [by rewrite own_assign_ne|done]).
Qed.

Lemma strip_non_numeric_app a b :
  strip_non_numeric (a +:+ b) = strip_non_numeric a +:+ strip_non_numeric b.
Proof.
  induction a as [|ch a IH]; simpl; [done|].
  destruct (is_digit ch || Ascii.eqb ch "." || Ascii.eqb ch "-"); simpl;
    by rewrite IH.
Qed.

Lemma strip_numeric_free junk :
  numeric_free junk = true → strip_non_numeric junk = EmptyString.
Proof.
  induction junk as [|ch junk IH]; simpl; [done|].
  destruct (is_digit ch || Ascii.eqb ch "." || Ascii.eqb ch "-"); simpl; [done|].
  exact IH.
Qed.

(** X15. The number read from a price text depends only on its digits,
    dots and hyphens: characters of any other kind (currency signs,
    thousands separators, blanks, letters), put anywhere in the text,
    change neither the stripped text nor the parsed [price_value]. *)
Theorem price_ignores_other_characters a junk b :
  numeric_free junk = true →
  strip_non_numeric (a +:+ junk +:+ b) = strip_non_numeric (a +:+ b) ∧
  parseFloat (strip_non_numeric (a +:+ junk +:+ b))
    = parseFloat (strip_non_numeric (a +:+ b)).
Proof.
  intros Hjunk.
  assert (Hstrip : strip_non_numeric (a +:+ junk +:+ b) = strip_non_numeric (a +:+ b)).
  { rewrite !strip_non_numeric_app. by rewrite (strip_numeric_free junk Hjunk). }
  split; [done|]. by rewrite Hstrip.
Qed.

Lemma digits_app acc s tail :
  no_leading_digit tail = true →
  digits acc (s +:+ tail) =
    let '(v, n, rest) := digits acc s in (v, n, rest +:+ tail).
Proof.
  intros Htail. revert acc. induction s as [|ch s IH]; intros acc; simpl.
  - destruct tail as [|ch tail]; simpl in *; [done|].
    by apply negb_true_iff in Htail as ->.
  - destruct (is_digit ch); [|done]. rewrite IH.
    by destruct (digits _ s) as [[v n] rest].
Qed.

Lemma trimStart_app s tail :
  trimStart s ≠ EmptyString → trimStart (s +:+ tail) = trimStart s +:+ tail.
Proof.
  induction s as [|ch s IH]; simpl; [done|].
  destruct (is_space ch); [exact IH|done].
Qed.

(** X16. [parseInt] reads the leading digits and nothing else: text that
    follows a parsed id text and does not go on with a digit (a unit, a
    bullet, a category that was not split off) leaves the parsed number
    as it was. *)
Theorem parseInt_ignores_trailing_text s tail n :
  parseInt s = Some n →
  no_leading_digit tail = true →
  parseInt (s +:+ tail) = Some n.
Proof.
  unfold parseInt. intros Hparse Htail.
  assert (Hne : trimStart s ≠ EmptyString).
  { intros Hempty. by rewrite Hempty in Hparse. }
  rewrite trimStart_app by done.
  destruct (trimStart s) as [|ch rest] eqn:Htrim; [done|].
  assert (Hsign : sign (String ch rest +:+ tail)
                  = let '(neg, unsigned) := sign (String ch rest) in
                    (neg, unsigned +:+ tail)).
  { unfold sign. simpl.
    destruct (Ascii.eqb_spec ch "-") as [->|Hminus]; [done|].
    destruct (Ascii.eqb_spec ch "+") as [->|Hplus]; [done|].
    destruct ch as [[] [] [] [] [] [] [] []]; try done. }
  rewrite Hsign. destruct (sign (String ch rest)) as [neg unsigned].
  rewrite digits_app by done.
  by destruct (digits 0 unsigned) as [[v k] tl].
Qed.

End RecordFacts.

(** ** The further properties at concrete runs *)

(** The batch files of a run over the growing page hold what is
    accumulated. *)
Lemma batches_partition_accumulated_witness :
  let st := outcome_state (loop 2 hiring_url locals0 init (sees <$> growing_page)) in
  partitioned st ∧
  (all_written (λ _, true) st →
   concat (bf_products <$> on_disk (λ _, true) st) = all_products st) ∧
  concat (bf_products <$> on_disk (λ _, true) st) `sublist_of` all_products st.
Proof.
  apply (batches_partition_accumulated 2 hiring_url growing_page (λ _, true)).
  simpl. repeat split; [apply prefix_nil | by exists [4; 5]%nat | reflexivity].
Defined.

(** A scroll that raises after one batch was written. *)
Lemma scroll_failure_keeps_batches_witness :
  extract_product_data_in_batches 2 hiring_url
    ([sees [1; 2; 3]%nat] ++ broken_scroll :: [sees [1; 2; 3; 4]%nat])
  = Some (false, three_records_saved, None).
Proof.
  apply (scroll_failure_keeps_batches 2 hiring_url [sees [1; 2; 3]%nat]
           {| last_product_count := 3; consecutive_same_count := 0 |}
           three_records_saved broken_scroll [sees [1; 2; 3; 4]%nat]);
    reflexivity.
Defined.

(** Four polls that count five elements while every evaluation raises. *)
Lemma extraction_failures_are_silent_witness :
  let polls := [counts (Product:=nat) 5 Raise; counts 5 Raise;
                counts 5 Raise; counts 5 Raise] in
  outcome_state (loop 2 hiring_url locals0 init polls) = init ∧
  (∀ ok st' out,
     extract_product_data_in_batches 2 hiring_url polls = Some (ok, st', out) →
     st' = init ∧
     (ok = true →
      out = Some {| total_products := 0; total_batches := 0;
                    out_batch_size := 2; out_base_url := hiring_url;
                    out_products := [] |})).
Proof.
  intros polls.
  apply (extraction_failures_are_silent 2 hiring_url polls locals0 init).
  repeat constructor; by left.
Defined.

(** A snapshot of two records met with three records accumulated. *)
Lemma flush_takes_records_beyond_witness :
  let st := {| all_products := [1; 2; 3]%nat; batch_number := 1; batch_folder := [] |} in
  let e := Ok (Records [1; 2]%nat) in
  all_products (extract_and_save_current_batch 2 hiring_url true st e)
    = all_products st ++ drop (length (all_products st)) [1; 2]%nat ∧
  length (all_products (extract_and_save_current_batch 2 hiring_url true st e))
    = (length (all_products st) `max` length [1; 2]%nat)%nat ∧
  ((length [1; 2]%nat ≤ length (all_products st))%nat →
   all_products (extract_and_save_current_batch 2 hiring_url true st e)
     = all_products st).
Proof.
  intros st e.
  apply (flush_takes_records_beyond 2 hiring_url true st e [1; 2]%nat).
  reflexivity.
Defined.

(** The run over the growing page ends with a last batch below the
    threshold. *)
Lemma final_batch_below_threshold_witness :
  match loop 2 hiring_url locals0 init (sees <$> growing_page) with
  | Polling _ st =>
    all_products st `prefix_of` default [] (last growing_page) ∧
    len (default [] (last growing_page)) - len (all_products st) < 2
  | Completed _ _ st _ =>
    ∃ earlier f, batch_folder st = earlier ++ [f] ∧ bf_products_in_batch f < 2 ∧
                 ∀ written, written (bf_batch_number f) = true →
                            last (on_disk written st) = Some f
  | Failed _ => False
  end.
Proof.
  apply (final_batch_below_threshold 2 hiring_url growing_page).
  - lia.
  - simpl. repeat split; [apply prefix_nil | by exists [4; 5]%nat | reflexivity].
Defined.

(** An info line with a bar: one part, no category. *)
Lemma category_needs_separator_witness :
  info_parts "ID: 42 | Tools"
    = (if decide (trim "ID: 42 | Tools" = EmptyString) then []
       else [trim "ID: 42 | Tools"]) ∧
  ((∀ s, s ∈ detail_sections card_with_bar → section_key s ≠ Some "category") →
   own (extract_product "2025-01-01T00:00:00.000Z" card_with_bar) !! "category" = None).
Proof.
  apply (category_needs_separator "2025-01-01T00:00:00.000Z" card_with_bar
           "ID: 42 | Tools"); reflexivity.
Defined.

(** A thousands separator in a price. *)
Lemma price_ignores_other_characters_witness :
  strip_non_numeric ("$1" +:+ "," +:+ "234.56") = strip_non_numeric ("$1" +:+ "234.56") ∧
  parseFloat (strip_non_numeric ("$1" +:+ "," +:+ "234.56"))
    = parseFloat (strip_non_numeric ("$1" +:+ "234.56")).
Proof.
  apply (price_ignores_other_characters "$1" "," "234.56"). reflexivity.
Defined.

(** The id of the unsplit info line above. *)
Lemma parseInt_ignores_trailing_text_witness :
  parseInt ("42" +:+ " | Tools")
    = Some {| negative := false; coefficient := 42; scale := 0 |}.
Proof.
  apply (parseInt_ignores_trailing_text "42" " | Tools"); reflexivity.
Defined.

(** The run over the growing page ends on the stall exit with a total
    within the ceiling. *)
Lemma ceiling_exit_iff_total_exceeds_witness :
  let st := {| all_products := [1; 2; 3; 4; 5]%nat; batch_number := 4;
               batch_folder :=
                 [ {| bf_batch_number := 1; bf_products_in_batch := 3;
                      bf_total_products_so_far := 3; bf_base_url := hiring_url;
                      bf_products := [1; 2; 3]%nat |};
                   {| bf_batch_number := 2; bf_products_in_batch := 2;
                      bf_total_products_so_far := 5; bf_base_url := hiring_url;
                      bf_products := [4; 5]%nat |};
                   {| bf_batch_number := 3; bf_products_in_batch := 0;
                      bf_total_products_so_far := 5; bf_base_url := hiring_url;
                      bf_products := [] |} ] |} in
  (NoNewProducts = LimitReached ↔
     MAX_EXPECTED_PRODUCTS < total_products (create_final_output 2 hiring_url st)) ∧
  (NoNewProducts = NoNewProducts ↔
     total_products (create_final_output 2 hiring_url st) ≤ MAX_EXPECTED_PRODUCTS).
Proof.
  intros st.
  apply (ceiling_exit_iff_total_exceeds 2 hiring_url
           (growing_page ++ [[1; 2; 3; 4; 5]; [1; 2; 3; 4; 5]]%nat) NoNewProducts
           {| last_product_count := 5; consecutive_same_count := 3 |} st []).
  - simpl. repeat split;
      [apply prefix_nil | by exists [4; 5]%nat | reflexivity..].
  - reflexivity.
Defined.

(** One record returned where five elements were counted: it is
    accumulated and no file is written. *)
Lemma unsaved_records_stay_unsaved_witness :
  let e := Ok (Records [1]%nat) in
  batch_folder (extract_and_save_current_batch 2 hiring_url false init e)
    = batch_folder init ∧
  all_products (extract_and_save_current_batch 2 hiring_url false init e)
    = all_products init ++ [1]%nat ∧
  unsaved_count (extract_and_save_current_batch 2 hiring_url false init e)
    = unsaved_count (init (Product:=nat)) + 1.
Proof.
  intros e.
  destruct (unsaved_records_stay_unsaved 2 hiring_url [] locals0 (init (Product:=nat)))
    as [_ Hgap].
  apply (Hgap e [1]%nat); [reflexivity | unfold len; simpl; lia].
Defined.
